(** * nova-translate: the selection-to-overlay engine of [src/contents/entry.tsx]

    A shallow embedding of the [Entry] component: its React state, the
    closures its event handlers run in, the translation port and lodash's id
    counter, followed by the properties of the interaction engine. *)

From Stdlib Require Import List FinFun ZArith NArith Lia Bool Ascii String.
From Stdlib Require Import DecimalString DecimalN.
From Stdlib Require Import PrimFloat.
Import ListNotations.

Set Implicit Arguments.

(** ** JavaScript strings

    A JavaScript string is a finite sequence of UTF-16 code units; [length],
    [slice], [trim], [+] and [===] all work on code units. *)

Definition code_unit := N.
Definition jsstring := list code_unit.

(** An ASCII literal as a JavaScript string (used for constants that the
    source writes as literals, and for examples). *)
Fixpoint js (s : string) : jsstring :=
  match s with
  | EmptyString => []
  | String c rest => N_of_ascii c :: js rest
  end.

(** The empty string. *)
Definition js_empty : jsstring := [].

(** [a === b] on strings. *)
Fixpoint jsstring_eqb (a b : jsstring) : bool :=
  match a, b with
  | [], [] => true
  | c :: a', d :: b' => N.eqb c d && jsstring_eqb a' b'
  | _, _ => false
  end.

(** [a || b] on strings: the empty string is the only falsy string. *)
Definition js_or (a b : jsstring) : jsstring :=
  match a with
  | [] => b
  | _ :: _ => a
  end.

(** ECMAScript [WhiteSpace] and [LineTerminator] code points, the set that
    [String.prototype.trim] strips (all of them lie in the basic plane, so
    each is a single code unit). *)
Definition is_white_space (c : code_unit) : bool :=
  ((9 <=? c) && (c <=? 13)          (* TAB, LF, VT, FF, CR *)
   || (c =? 32)                     (* SPACE *)
   || (c =? 160)                    (* NO-BREAK SPACE *)
   || (c =? 5760)                   (* OGHAM SPACE MARK *)
   || ((8192 <=? c) && (c <=? 8202)) (* EN QUAD .. HAIR SPACE *)
   || (c =? 8232) || (c =? 8233)    (* LINE / PARAGRAPH SEPARATOR *)
   || (c =? 8239)                   (* NARROW NO-BREAK SPACE *)
   || (c =? 8287)                   (* MEDIUM MATHEMATICAL SPACE *)
   || (c =? 12288)                  (* IDEOGRAPHIC SPACE *)
   || (c =? 65279))%N.              (* ZERO WIDTH NO-BREAK SPACE *)

Fixpoint trimStart (s : jsstring) : jsstring :=
  match s with
  | [] => []
  | c :: rest => if is_white_space c then trimStart rest else s
  end.

Definition trimEnd (s : jsstring) : jsstring := rev (trimStart (rev s)).

(** [s.trim()] *)
Definition trim (s : jsstring) : jsstring := trimEnd (trimStart s).

(** A relative index of [slice] resolved against the length [len]: negative
    indices count from the end, and the result is clamped to [0 .. len]. *)
Definition slice_index (len i : Z) : Z :=
  if (i <? 0)%Z then Z.max (len + i) 0 else Z.min i len.

(** [s.slice(start, end)] for integral [start] and [end]. *)
Definition slice (s : jsstring) (start_ end_ : Z) : jsstring :=
  let len := Z.of_nat (List.length s) in
  let from := slice_index len start_ in
  let to := slice_index len end_ in
  if (to <=? from)%Z then []
  else firstn (Z.to_nat (to - from)) (skipn (Z.to_nat from) s).

(** ** Geometry

    Client rectangles and overlay coordinates are JavaScript numbers, that
    is IEEE 754 binary64 values. *)

Record Rect := { left : float; right : float; top : float; bottom : float }.

Record Position := { x : float; y : float }.

Definition zeroRect : Rect :=
  {| left := 0; right := 0; top := 0; bottom := 0 |}.

(** [entryPanelPosition]: the [useMemo] body.  Its dependency list names
    every field the body reads, so the memoised value is always the value of
    the body on the current [sourceTextRect]. *)
Definition entryPanelPosition (sourceTextRect : Rect) : Position :=
  {| x := left sourceTextRect + (right sourceTextRect - left sourceTextRect) / 2;
     y := bottom sourceTextRect + 10 |}%float.

(** ** The translation port and lodash's id counter *)

(** The body handed to [aiPort.send]. *)
Record Request := { uniqueId : jsstring; text : jsstring }.

(** What the port delivers to [aiPort.listen]: [{ messageType, data }], with
    the two message types the listener looks at and everything else. *)
Inductive Message :=
| TRANSLATE_TEXT_PART (uniqueId text : jsstring)
| TRANSLATE_TEXT_ERROR (uniqueId error_message : jsstring)
| OTHER_MESSAGE.

Module Lodash.

(** A number converted to a string: plain decimal digits. *)
Definition toString (n : N) : jsstring :=
  js (NilEmpty.string_of_uint (N.to_uint n)).

(** Modelled from the spec: the session id generator, [uniqueId] of
    lodash-es, which is not among the sources.  The spec asks for a fresh
    unique id on every start; lodash keeps a module-level [idCounter],
    pre-increments it on every call and returns it in decimal after the
    (here empty) prefix.  The counter is an unbounded natural number (a
    JavaScript number counts exactly up to 2^53). *)
Definition uniqueId (idCounter : N) : jsstring * N :=
  let id := N.succ idCounter in
  (toString id, id).

End Lodash.

(** What [window.getSelection()] exposes to the handlers: [isCollapsed],
    the client rectangle of [getRangeAt(0)] and [toString()]. *)
Record Selection := {
  isCollapsed : bool;
  getBoundingClientRect : Rect;
  toString : jsstring
}.

(** The argument of a React state setter: a value or an updater function. *)
Inductive SetStateAction (A : Type) :=
| Value (v : A)
| Updater (f : A -> A).

Definition applyAction {A} (a : SetStateAction A) (prev : A) : A :=
  match a with
  | Value v => v
  | Updater f => f prev
  end.

Section Entry.

(** Modelled from the spec: the enumerated target languages of
    config/common, which is not among the sources; only the member
    [LanguageEnum.English] is named by the component. *)
Context {LanguageEnum : Type}.
Variable English : LanguageEnum.

(** Modelled from the spec: [MAX_TRANSLATION_LENGTH], the integer cap on
    the captured selection length exported by config/common, which is not
    among the sources. *)
Variable MAX_TRANSLATION_LENGTH : Z.

(** *** Component state: the five [useState] cells and the target language
    rendered by [useStorage]. *)
Record State := {
  sourceText : jsstring;
  textId : jsstring;
  targetText : jsstring;
  showEntryPanel : bool;
  sourceTextRect : Rect;
  targetLanguage : LanguageEnum
}.

(** *** Closures of the mounted effects

    A callback registered by [useEffect] sees the variables of the render in
    which the effect last ran.  Of those variables the callbacks read three:
    the hotkey callback calls [getTranslatedText], which reads [sourceText];
    the port listener reads [textId]; the function wrapped by the debounced
    scroll listener reads [showEntryPanel].  The record holds what the
    callbacks registered now close over. *)
Record Closures := {
  hotkey_sourceText : jsstring;
  listener_textId : jsstring;
  scroll_showEntryPanel : bool
}.

(** Everything an event can change: the component state; the closures of
    the mounted effects; the debounce timers of the scroll callbacks;
    lodash's [idCounter]; the requests posted on the port so far, oldest
    first; the values handed to the storage setter so far, oldest first.

    Modelled from the spec: [debounce] of lodash-es, which is not among the
    sources.  A call of a debounced function starts its timer, or starts it
    again; when the timer runs out the wrapped function is called once.
    [scrollTimer] says whether the timer of the debounced function now
    registered as scroll listener is running.  [staleTimers] are the running
    timers of debounced functions made by earlier runs of the scroll effect,
    oldest first, each with the [showEntryPanel] its wrapped function closes
    over: the effect's cleanup removes the listener and leaves the timer
    running.  Time itself is not modelled: a running timer runs out at some
    later event, an older timer before a newer one. *)
Record World := {
  component : State;
  closures : Closures;
  scrollTimer : bool;
  staleTimers : list bool;
  idCounter : N;
  port : list Request;
  storage : list LanguageEnum
}.

(** The initialiser handed to [useStorage]. *)
Definition targetLanguageInit (value : option LanguageEnum) : LanguageEnum :=
  match value with
  | None => English
  | Some value => value
  end.

(** The first render: the [useState] initial values, and for the target
    language the initialiser applied to [undefined]; what the store holds is
    rendered later. *)
Definition initialState : State :=
  {| sourceText := js_empty;
     textId := js_empty;
     targetText := js_empty;
     showEntryPanel := false;
     sourceTextRect := {| left := 0; right := 0; top := 0; bottom := 0 |};
     targetLanguage := targetLanguageInit None |}.

(** Every effect runs after the first render. *)
Definition mountEffects (s : State) : Closures :=
  {| hotkey_sourceText := sourceText s;
     listener_textId := textId s;
     scroll_showEntryPanel := showEntryPanel s |}.

(** After a later render an effect runs again only if one of its
    dependencies differs from the render before: the hotkey effect has the
    dependencies [[]], the listener effect [[textId]], the scroll effect
    [[showEntryPanel]]. *)
Definition updateEffects (before after : State) (c : Closures) : Closures :=
  {| hotkey_sourceText := hotkey_sourceText c;
     listener_textId :=
       if jsstring_eqb (textId before) (textId after) then listener_textId c
       else textId after;
     scroll_showEntryPanel :=
       if Bool.eqb (showEntryPanel before) (showEntryPanel after)
       then scroll_showEntryPanel c
       else showEntryPanel after |}.

Definition mount (idCounter : N) : World :=
  {| component := initialState;
     closures := mountEffects initialState;
     scrollTimer := false;
     staleTimers := [];
     idCounter := idCounter;
     port := [];
     storage := [] |}.

(** *** Handlers as state transformers *)

Definition Handler (A : Type) : Type := World -> A * World.

Definition ret {A} (a : A) : Handler A := fun w => (a, w).

Definition bind {A B} (c : Handler A) (k : A -> Handler B) : Handler B :=
  fun w => let (a, w') := c w in k a w'.

Definition exec {A} (c : Handler A) (w : World) : World := snd (c w).

Local Notation "x <- c ;; k" := (bind c (fun x => k))
  (at level 61, c at next level, right associativity).
Local Notation "c ;; k" := (bind c (fun _ => k))
  (at level 61, right associativity).

Definition setState (f : State -> State) : Handler unit :=
  fun w => (tt, {| component := f (component w);
                   closures := closures w;
                   scrollTimer := scrollTimer w;
                   staleTimers := staleTimers w;
                   idCounter := idCounter w;
                   port := port w;
                   storage := storage w |}).

Definition setSourceText (a : SetStateAction jsstring) : Handler unit :=
  setState (fun s =>
    {| sourceText := applyAction a (sourceText s); textId := textId s;
       targetText := targetText s; showEntryPanel := showEntryPanel s;
       sourceTextRect := sourceTextRect s; targetLanguage := targetLanguage s |}).

Definition setTextId (a : SetStateAction jsstring) : Handler unit :=
  setState (fun s =>
    {| sourceText := sourceText s; textId := applyAction a (textId s);
       targetText := targetText s; showEntryPanel := showEntryPanel s;
       sourceTextRect := sourceTextRect s; targetLanguage := targetLanguage s |}).

Definition setTargetText (a : SetStateAction jsstring) : Handler unit :=
  setState (fun s =>
    {| sourceText := sourceText s; textId := textId s;
       targetText := applyAction a (targetText s); showEntryPanel := showEntryPanel s;
       sourceTextRect := sourceTextRect s; targetLanguage := targetLanguage s |}).

Definition setShowEntryPanel (a : SetStateAction bool) : Handler unit :=
  setState (fun s =>
    {| sourceText := sourceText s; textId := textId s;
       targetText := targetText s; showEntryPanel := applyAction a (showEntryPanel s);
       sourceTextRect := sourceTextRect s; targetLanguage := targetLanguage s |}).

Definition setSourceTextRect (a : SetStateAction Rect) : Handler unit :=
  setState (fun s =>
    {| sourceText := sourceText s; textId := textId s;
       targetText := targetText s; showEntryPanel := showEntryPanel s;
       sourceTextRect := applyAction a (sourceTextRect s);
       targetLanguage := targetLanguage s |}).

(** Modelled from the spec: the setter returned by [useStorage] (of
    @plasmohq/storage, which is not among the sources).  It hands the new
    value to the store and returns; the hook sets the rendered
    [targetLanguage] later, when the store has settled. *)
Definition setTargetLanguage (a : SetStateAction LanguageEnum) : Handler unit :=
  fun w => (tt, {| component := component w;
                   closures := closures w;
                   scrollTimer := scrollTimer w;
                   staleTimers := staleTimers w;
                   idCounter := idCounter w;
                   port := port w;
                   storage := storage w
                              ++ [applyAction a (targetLanguage (component w))] |}).

(** Modelled from the spec: the [useStorage] hook setting the rendered
    value, after the stored value was read, a write settled or the store
    changed. *)
Definition renderTargetLanguage (language : LanguageEnum) : Handler unit :=
  setState (fun s =>
    {| sourceText := sourceText s; textId := textId s;
       targetText := targetText s; showEntryPanel := showEntryPanel s;
       sourceTextRect := sourceTextRect s;
       targetLanguage := language |}).

(** The debounce timer of the registered scroll listener is started or
    stopped. *)
Definition setScrollTimer (running : bool) : Handler unit :=
  fun w => (tt, {| component := component w;
                   closures := closures w;
                   scrollTimer := running;
                   staleTimers := staleTimers w;
                   idCounter := idCounter w;
                   port := port w;
                   storage := storage w |}).

Definition setStaleTimers (timers : list bool) : Handler unit :=
  fun w => (tt, {| component := component w;
                   closures := closures w;
                   scrollTimer := scrollTimer w;
                   staleTimers := timers;
                   idCounter := idCounter w;
                   port := port w;
                   storage := storage w |}).

(** A lodash function run on the module-level counter. *)
Definition lodash {A} (f : N -> A * N) : Handler A :=
  fun w => let (a, c) := f (idCounter w) in
           (a, {| component := component w; closures := closures w;
                  scrollTimer := scrollTimer w; staleTimers := staleTimers w;
                  idCounter := c; port := port w; storage := storage w |}).

(** [aiPort.send(body)] *)
Definition aiPort_send (body : Request) : Handler unit :=
  fun w => (tt, {| component := component w; closures := closures w;
                   scrollTimer := scrollTimer w; staleTimers := staleTimers w;
                   idCounter := idCounter w;
                   port := port w ++ [body];
                   storage := storage w |}).

(** *** The handlers

    A handler reads component state only through the variables of the
    render it was created in, so each takes the variables it closes over
    as leading arguments, under their names in the source. *)

Definition getTranslatedText (sourceText : jsstring) (selectedText : jsstring)
  : Handler unit :=
  id <- lodash Lodash.uniqueId ;;
  setTextId (Value id) ;;
  setTargetText (Value js_empty) ;;
  setSourceText (Value selectedText) ;;
  aiPort_send {| uniqueId := id; text := js_or selectedText sourceText |}.

Definition handleTargetLanguageChange (sourceText : jsstring)
    (language : LanguageEnum) : Handler unit :=
  setTargetLanguage (Value language) ;;
  getTranslatedText sourceText sourceText.

(** The callback given to [aiPort.listen]. *)
Definition onMessage (textId : jsstring) (message : Message) : Handler unit :=
  match message with
  | TRANSLATE_TEXT_PART uniqueId text =>
      if negb (jsstring_eqb uniqueId textId) then ret tt
      else setTargetText (Updater (fun prev => prev ++ text))
  | TRANSLATE_TEXT_ERROR uniqueId error_message =>
      if negb (jsstring_eqb uniqueId textId) then ret tt
      else setTargetText (Value error_message)
  | OTHER_MESSAGE => ret tt
  end.

(** The callback bound to ["option+n"]; [selection] is what
    [window.getSelection()] returns, [None] for [null]. *)
Definition onHotkey (sourceText : jsstring) (selection : option Selection)
  : Handler unit :=
  match selection with
  | None => ret tt
  | Some selection =>
      if isCollapsed selection then setShowEntryPanel (Value false)
      else
        let rect := getBoundingClientRect selection in
        let selectedText := trim (toString selection) in
        let selectedText := slice selectedText 0 MAX_TRANSLATION_LENGTH in
        setShowEntryPanel (Value true) ;;
        setSourceTextRect (Value {| left := left rect; right := right rect;
                                    top := top rect; bottom := bottom rect |}) ;;
        getTranslatedText sourceText selectedText
  end.

(** The function wrapped by [debounce]: what runs when its debounce timer
    runs out. *)
Definition handleScroll (showEntryPanel : bool) (selection : option Selection)
  : Handler unit :=
  if negb showEntryPanel then ret tt
  else
    match selection with
    | None => ret tt
    | Some selection =>
        if isCollapsed selection then ret tt
        else
          let rect := getBoundingClientRect selection in
          setSourceTextRect (Value {| left := left rect; right := right rect;
                                      top := top rect; bottom := bottom rect |})
    end.

(** The debounced function, registered as listener of [scroll] events on
    the document: a call starts its timer, or starts it again. *)
Definition handleScroll_debounced : Handler unit := setScrollTimer true.

(** A debounce timer runs out: the oldest one running.  If a debounced
    function of an earlier run of the scroll effect still has its timer
    running, that one runs out and its wrapped function runs with the
    [showEntryPanel] it closes over; otherwise, if the timer of the
    registered debounced function is running, that one; otherwise nothing
    happens.  [registered] is what the registered one closes over. *)
Definition timerExpired (registered : bool) (selection : option Selection)
  : Handler unit :=
  fun w =>
    match staleTimers w with
    | showEntryPanel :: rest =>
        (setStaleTimers rest ;; handleScroll showEntryPanel selection) w
    | [] =>
        if scrollTimer w
        then (setScrollTimer false ;; handleScroll registered selection) w
        else ret tt w
    end.

(** [localName] is [event.target.localName]. *)
Definition handleMouseDown (localName : jsstring) : Handler unit :=
  if jsstring_eqb localName (js "plasmo-csui") then ret tt
  else
    setShowEntryPanel (Value false) ;;
    setSourceTextRect (Value {| left := 0; right := 0; top := 0; bottom := 0 |}).

(** *** Events

    The host delivers one event at a time: the hotkey, a choice in the
    language picker, a message on the port, a scroll debounce timer running
    out ([selection] is what [window.getSelection()] returns then), a
    pointer-down, a scroll event on the document, the storage hook setting
    the rendered target language.  An event runs its callback, and React has
    rendered again and updated the effects before the next event is
    handled. *)
Inductive Event :=
| Hotkey (selection : option Selection)
| LanguagePicked (language : LanguageEnum)
| PortMessage (message : Message)
| ScrollSettled (selection : option Selection)
| MouseDown (localName : jsstring)
| Scroll
| LanguageRendered (language : LanguageEnum).

(** The callback an event runs.  The callbacks of the effects close over
    the render their effect last ran in; [handleTargetLanguageChange] is
    created by every render and handed to the picker, so it closes over the
    current render. *)
Definition callback (w : World) (e : Event) : Handler unit :=
  match e with
  | Hotkey selection =>
      onHotkey (hotkey_sourceText (closures w)) selection
  | LanguagePicked language =>
      handleTargetLanguageChange (sourceText (component w)) language
  | PortMessage message =>
      onMessage (listener_textId (closures w)) message
  | ScrollSettled selection =>
      timerExpired (scroll_showEntryPanel (closures w)) selection
  | MouseDown localName =>
      handleMouseDown localName
  | Scroll =>
      handleScroll_debounced
  | LanguageRendered language =>
      renderTargetLanguage language
  end.

(** The render that follows an event whose callback turned the state
    [before] into that of [w].  When the scroll effect runs again, its
    cleanup removes the old debounced function from the [scroll] listeners
    without cancelling it: if its timer is running it stays running, and the
    new debounced function starts with no timer. *)
Definition rerender (before : State) (w : World) : World :=
  {| component := component w;
     closures := updateEffects before (component w) (closures w);
     scrollTimer :=
       if Bool.eqb (showEntryPanel before) (showEntryPanel (component w))
       then scrollTimer w
       else false;
     staleTimers :=
       if Bool.eqb (showEntryPanel before) (showEntryPanel (component w))
       then staleTimers w
       else staleTimers w
            ++ (if scrollTimer w then [scroll_showEntryPanel (closures w)] else []);
     idCounter := idCounter w;
     port := port w;
     storage := storage w |}.

(** What the timer running out next will test: the [showEntryPanel] its
    wrapped function closes over; [false] also when no timer is running. *)
Definition firingScroll (w : World) : bool :=
  match staleTimers w with
  | showEntryPanel :: _ => showEntryPanel
  | [] => scrollTimer w && scroll_showEntryPanel (closures w)
  end.

Definition step (w : World) (e : Event) : World :=
  rerender (component w) (exec (callback w e) w).

Definition run (w : World) (events : list Event) : World :=
  fold_left step events w.

(** The worlds the component can be in. *)
Definition reachable (w : World) : Prop :=
  exists idCounter0 events, w = run (mount idCounter0) events.

(** The ids of the sessions started so far, oldest first. *)
Definition sessionIds (w : World) : list jsstring := map uniqueId (port w).

(** The id a port message is tagged with. *)
Definition message_uniqueId (message : Message) : option jsstring :=
  match message with
  | TRANSLATE_TEXT_PART uniqueId _ => Some uniqueId
  | TRANSLATE_TEXT_ERROR uniqueId _ => Some uniqueId
  | OTHER_MESSAGE => None
  end.

(** The fragments as port messages tagged with [id]. *)
Definition parts (id : jsstring) (fragments : list jsstring) : list Event :=
  map (fun fragment => PortMessage (TRANSLATE_TEXT_PART id fragment)) fragments.

(** The events that start a session: the hotkey on a live selection and a
    choice in the language picker. *)
Definition starts_session (e : Event) : bool :=
  match e with
  | Hotkey (Some selection) => negb (isCollapsed selection)
  | LanguagePicked _ => true
  | _ => false
  end.

(** The display of session [id] as a reducer over the events: a fragment
    tagged [id] is appended, an error tagged [id] replaces the text, and
    every other event leaves the text alone. *)
Definition display (id : jsstring) (shown : jsstring) (e : Event) : jsstring :=
  match e with
  | PortMessage (TRANSLATE_TEXT_PART uniqueId fragment) =>
      if jsstring_eqb uniqueId id then shown ++ fragment else shown
  | PortMessage (TRANSLATE_TEXT_ERROR uniqueId error_message) =>
      if jsstring_eqb uniqueId id then error_message else shown
  | _ => shown
  end.

(** *** Invariants of the reachable worlds *)

(** The hotkey callback still sees the initial [sourceText]; the listener
    and the registered scroll listener see the current [textId] and
    [showEntryPanel]. *)
Definition closures_current (w : World) : Prop :=
  hotkey_sourceText (closures w) = js_empty /\
  listener_textId (closures w) = textId (component w) /\
  scroll_showEntryPanel (closures w) = showEntryPanel (component w).

(** Every session id on the port is a value the counter has already passed,
    and no value was used twice. *)
Definition ids_issued (w : World) : Prop :=
  exists ns : list N,
    sessionIds w = map Lodash.toString ns /\
    NoDup ns /\
    Forall (fun n => (n <= idCounter w)%N) ns.

(** The component's [textId] and [sourceText] are those of the request sent
    last; before the first request both are empty. *)
Definition tracks_last_request (w : World) : Prop :=
  match rev (port w) with
  | [] => textId (component w) = js_empty /\ sourceText (component w) = js_empty
  | r :: _ => uniqueId r = textId (component w) /\
              text r = sourceText (component w)
  end.

Definition invariant (w : World) : Prop :=
  closures_current w /\ ids_issued w /\ tracks_last_request w.

(** What [w'] looks like when a session for the text [started] was started
    in [w]: an id no earlier session had, an empty display, and exactly one
    more request on the port, carrying that id and that text. *)
Definition session_started (w w' : World) (started : jsstring) : Prop :=
  ~ In (textId (component w')) (sessionIds w) /\
  textId (component w') <> textId (component w) /\
  targetText (component w') = js_empty /\
  sourceText (component w') = started /\
  port w' = port w ++ [{| uniqueId := textId (component w'); text := started |}].

(** *** Views of a run *)

(** The text the hotkey captures from a live selection: the two
    assignments to [selectedText]. *)
Definition capturedText (selection : Selection) : jsstring :=
  slice (trim (toString selection)) 0 MAX_TRANSLATION_LENGTH.

(** [showEntryPanel] as a reducer over the events: the hotkey on a
    selection object shows or hides the overlay, a pointer-down outside the
    overlay's element hides it. *)
Definition visibility (shown : bool) (e : Event) : bool :=
  match e with
  | Hotkey (Some selection) => negb (isCollapsed selection)
  | MouseDown localName =>
      if jsstring_eqb localName (js "plasmo-csui") then shown else false
  | _ => shown
  end.

(** The rendered [targetLanguage] as a reducer over the events. *)
Definition renderedLanguage (language : LanguageEnum) (e : Event) : LanguageEnum :=
  match e with
  | LanguageRendered rendered => rendered
  | _ => language
  end.

(** The languages picked in a run, oldest first. *)
Fixpoint pickedLanguages (events : list Event) : list LanguageEnum :=
  match events with
  | [] => []
  | LanguagePicked language :: rest => language :: pickedLanguages rest
  | _ :: rest => pickedLanguages rest
  end.

(** [sourceText] as a reducer over the events. *)
Definition capturedSource (source : jsstring) (e : Event) : jsstring :=
  match e with
  | Hotkey (Some selection) =>
      if isCollapsed selection then source else capturedText selection
  | _ => source
  end.

(** The texts of the requests a run posts, oldest first, when it begins
    with the source text [source]. *)
Fixpoint requestTexts (source : jsstring) (events : list Event) : list jsstring :=
  match events with
  | [] => []
  | e :: rest =>
      let source' := capturedSource source e in
      if starts_session e then source' :: requestTexts source' rest
      else requestTexts source' rest
  end.

(** Requests for [texts], numbered from the counter value [idCounter]. *)
Fixpoint requests (idCounter : N) (texts : list jsstring) : list Request :=
  match texts with
  | [] => []
  | t :: rest =>
      {| uniqueId := Lodash.toString (N.succ idCounter); text := t |}
      :: requests (N.succ idCounter) rest
  end.

(** *** What is rendered *)

(** Modelled from the spec: an entry of [Languages], the list of supported
    target languages of config/common, which is not among the sources: a
    machine value and a human label. *)
Record LanguageOption := { value : LanguageEnum; label : jsstring }.

Variable Languages : list LanguageOption.

(** [a === b] on language values. *)
Variable LanguageEnum_eqb : LanguageEnum -> LanguageEnum -> bool.

(** An entry of the language list as rendered: its label, and whether its
    check mark is opaque. *)
Record CommandItem := { item_label : jsstring; item_checked : bool }.

(** The parts of the panel that depend on the state: where it is animated
    to, the translation shown, the label on the language button
    ([None] for [undefined]) and the entries of the language list. *)
Record EntryPanel := {
  panel_position : Position;
  panel_text : jsstring;
  panel_language : option jsstring;
  panel_items : list CommandItem
}.

(** The returned JSX: the panel is present only while [showEntryPanel]. *)
Definition render (s : State) : option EntryPanel :=
  if showEntryPanel s then
    Some {| panel_position := entryPanelPosition (sourceTextRect s);
            panel_text := targetText s;
            panel_language :=
              option_map label
                (find (fun language =>
                         LanguageEnum_eqb (value language) (targetLanguage s))
                      Languages);
            panel_items :=
              map (fun language =>
                     {| item_label := label language;
                        item_checked :=
                          LanguageEnum_eqb (value language) (targetLanguage s) |})
                  Languages |}
  else None.

End Entry.

(** ** Sample data for concrete runs *)

Inductive SampleLanguage := SampleEnglish | SampleFrench.

(** A live selection around the words "Hola mundo". *)
Definition holaMundo : Selection :=
  {| isCollapsed := false;
     getBoundingClientRect := {| left := 100; right := 300.5; top := 40; bottom := 58.25 |};
     toString := js "  Hola mundo " |}.

(** The same selection after the page was scrolled by 30 pixels. *)
Definition holaMundoScrolled : Selection :=
  {| isCollapsed := false;
     getBoundingClientRect := {| left := 100; right := 300.5; top := 10; bottom := 28.25 |};
     toString := js "  Hola mundo " |}.

(** A caret: a collapsed selection. *)
Definition caret : Selection :=
  {| isCollapsed := true;
     getBoundingClientRect := {| left := 12; right := 12; top := 7; bottom := 21 |};
     toString := js_empty |}.

(** A live selection of white space only. *)
Definition blank : Selection :=
  {| isCollapsed := false;
     getBoundingClientRect := {| left := 1; right := 2; top := 3; bottom := 4 |};
     toString := js "   " |}.

(** The component mounted with an untouched lodash counter; the runs below
    use a cap of 5000 code units. *)
Definition sampleMount : World := mount SampleEnglish 0.

(** The hotkey pressed on "Hola mundo": session 1. *)
Definition afterHotkey : World := run 5000 sampleMount [Hotkey (Some holaMundo)].

(** French picked while session 1 is current: session 2. *)
Definition afterFrench : World :=
  run 5000 sampleMount [Hotkey (Some holaMundo); LanguagePicked SampleFrench].

(** The requests of sessions 1 and 2. *)
Definition request1 : Request := {| uniqueId := js "1"; text := js "Hola mundo" |}.
Definition request2 : Request := {| uniqueId := js "2"; text := js "Hola mundo" |}.

(** A list of languages for the picker, and [===] on its values. *)
Definition sampleLanguages : list (@LanguageOption SampleLanguage) :=
  [{| value := SampleEnglish; label := js "English" |};
   {| value := SampleFrench; label := js "French" |}].

Definition sampleLanguage_eqb (a b : SampleLanguage) : bool :=
  match a, b with
  | SampleEnglish, SampleEnglish => true
  | SampleFrench, SampleFrench => true
  | _, _ => false
  end.

(** An afternoon of events: a capture, a fragment, a scroll and its timer,
    a language change and its rendering, a capture of white space, a click
    outside and a late scroll. *)
Definition sampleEvents : list (@Event SampleLanguage) :=
  [Hotkey (Some holaMundo);
   PortMessage (TRANSLATE_TEXT_PART (js "1") (js "Hello"));
   Scroll;
   ScrollSettled (Some holaMundoScrolled);
   LanguagePicked SampleFrench;
   LanguageRendered SampleFrench;
   Hotkey (Some blank);
   MouseDown (js "div");
   Scroll;
   ScrollSettled (Some holaMundo)].

(** The overlay shown, a scroll, and a click outside before the scroll's
    debounce timer has run out. *)
Definition scrolledThenHidden : World :=
  run 5000 sampleMount [Hotkey (Some holaMundo); Scroll; MouseDown (js "div")].

(** A scroll while the overlay is hidden, and the hotkey before the scroll's
    debounce timer has run out. *)
Definition scrolledThenShown : World :=
  run 5000 sampleMount [Scroll; Hotkey (Some holaMundo)].

(** * Properties *)

Unset Implicit Arguments.

(** ** Strings *)

Lemma jsstring_eqb_eq (a b : jsstring) : jsstring_eqb a b = true <-> a = b.
Proof.
  revert b; induction a as [|c a IH]; intros [|d b]; simpl;
    try (split; [discriminate | congruence]); try tauto.
  rewrite andb_true_iff, N.eqb_eq, IH.
  split; [intros [-> ->]; reflexivity | intros [= -> ->]; auto].
Qed.

Lemma jsstring_eqb_refl (a : jsstring) : jsstring_eqb a a = true.
Proof. now apply jsstring_eqb_eq. Qed.

Lemma jsstring_eqb_neq (a b : jsstring) : a <> b -> jsstring_eqb a b = false.
Proof.
  intros Hne. destruct (jsstring_eqb a b) eqn:E; [|reflexivity].
  apply jsstring_eqb_eq in E. contradiction.
Qed.

Lemma js_or_same (a : jsstring) : js_or a a = a.
Proof. now destruct a. Qed.

Lemma js_or_empty (a : jsstring) : js_or a js_empty = a.
Proof. now destruct a. Qed.

Lemma js_inj (s t : string) : js s = js t -> s = t.
Proof.
  revert t; induction s as [|c s IH]; intros [|d t]; simpl; try congruence.
  intros [= Hc Hs]. f_equal; [|now apply IH].
  rewrite <- (ascii_N_embedding c), <- (ascii_N_embedding d). now f_equal.
Qed.

(** Distinct counter values are rendered as distinct ids. *)
Lemma Lodash_toString_inj (m n : N) :
  Lodash.toString m = Lodash.toString n -> m = n.
Proof.
  unfold Lodash.toString. intros H. apply js_inj in H.
  assert (Hu : Some (N.to_uint m) = Some (N.to_uint n)).
  { now rewrite <- !NilEmpty.usu, H. }
  injection Hu as Hu.
  now rewrite <- (DecimalN.Unsigned.of_to m), <- (DecimalN.Unsigned.of_to n), Hu.
Qed.

(** [trimStart] removes the longest prefix of white space. *)
Lemma trimStart_spec (s : jsstring) :
  exists pre,
    s = pre ++ trimStart s /\
    Forall (fun c => is_white_space c = true) pre /\
    (forall c rest, trimStart s = c :: rest -> is_white_space c = false).
Proof.
  induction s as [|c s (pre & Hs & Hpre & Hhead)].
  - exists []. repeat split; [constructor | discriminate].
  - simpl. destruct (is_white_space c) eqn:Hc.
    + exists (c :: pre). repeat split.
      * simpl. now f_equal.
      * now constructor.
      * assumption.
    + exists []. repeat split; [constructor | ].
      now intros c' rest [= <- _].
Qed.

(** [trimEnd] removes the longest suffix of white space. *)
Lemma trimEnd_spec (s : jsstring) :
  exists post,
    s = trimEnd s ++ post /\
    Forall (fun c => is_white_space c = true) post /\
    (forall c front, trimEnd s = front ++ [c] -> is_white_space c = false).
Proof.
  unfold trimEnd.
  destruct (trimStart_spec (rev s)) as (pre & Hs & Hpre & Hhead).
  exists (rev pre). repeat split.
  - rewrite <- rev_app_distr, <- Hs. now rewrite rev_involutive.
  - now apply Forall_rev.
  - intros c front Hlast. apply (Hhead c (rev front)).
    apply (f_equal (@rev code_unit)) in Hlast.
    now rewrite rev_involutive, rev_app_distr in Hlast.
Qed.

(** [trim] removes white space at both ends and nothing else. *)
Lemma trim_spec (s : jsstring) :
  exists pre post,
    s = pre ++ trim s ++ post /\
    Forall (fun c => is_white_space c = true) pre /\
    Forall (fun c => is_white_space c = true) post /\
    (forall c rest, trim s = c :: rest -> is_white_space c = false) /\
    (forall c front, trim s = front ++ [c] -> is_white_space c = false).
Proof.
  unfold trim.
  destruct (trimStart_spec s) as (pre & Hs & Hpre & Hhead).
  destruct (trimEnd_spec (trimStart s)) as (post & Ht & Hpost & Hlast).
  exists pre, post. repeat split; try assumption.
  - now rewrite <- Ht.
  - intros c rest Hc. rewrite Hc in Ht. apply (Hhead c (rest ++ post)).
    now rewrite Ht.
Qed.

(** [slice(0, n)] with a non-negative [n] keeps the first [n] code units. *)
Lemma slice_prefix (s : jsstring) (n : Z) :
  (0 <= n)%Z -> slice s 0 n = firstn (Z.to_nat n) s.
Proof.
  intros Hn. unfold slice, slice_index.
  change (0 <? 0)%Z with false. cbv iota.
  destruct (n <? 0)%Z eqn:Hneg; [apply Z.ltb_lt in Hneg; lia|].
  rewrite (Z.min_l 0) by lia.
  destruct (Z.min n (Z.of_nat (List.length s)) <=? 0)%Z eqn:Hle.
  - apply Z.leb_le in Hle.
    destruct s as [|c s]; [now rewrite firstn_nil|].
    simpl List.length in Hle.
    replace (Z.to_nat n) with 0%nat by lia. reflexivity.
  - apply Z.leb_gt in Hle. rewrite Z.sub_0_r. simpl skipn.
    destruct (Z.le_ge_cases n (Z.of_nat (List.length s))) as [Hin | Hout].
    + now rewrite Z.min_l.
    + rewrite Z.min_r by assumption. rewrite Nat2Z.id.
      rewrite firstn_all. symmetry. apply firstn_all2. lia.
Qed.

Lemma slice_length (s : jsstring) (n : Z) :
  (0 <= n)%Z -> (Z.of_nat (List.length (slice s 0 n)) <= n)%Z.
Proof.
  intros Hn. rewrite slice_prefix by assumption.
  pose proof (firstn_le_length (Z.to_nat n) s). lia.
Qed.

(** ** Runs *)

Lemma run_snoc {LanguageEnum : Type} (cap : Z)
    (w : @World LanguageEnum) (events : list Event) (e : Event) :
  run cap w (events ++ [e]) = step cap (run cap w events) e.
Proof. unfold run. now rewrite fold_left_app. Qed.

Lemma run_cons {LanguageEnum : Type} (cap : Z)
    (w : @World LanguageEnum) (events : list Event) (e : Event) :
  run cap w (e :: events) = run cap (step cap w e) events.
Proof. reflexivity. Qed.

Section EntryProperties.

Context {LanguageEnum : Type}.
Variable English : LanguageEnum.
Variable MAX_TRANSLATION_LENGTH : Z.

Local Abbreviation World := (@World LanguageEnum).
Local Abbreviation callback := (callback MAX_TRANSLATION_LENGTH).
Local Abbreviation step := (step MAX_TRANSLATION_LENGTH).
Local Abbreviation run := (run MAX_TRANSLATION_LENGTH).
Local Abbreviation reachable := (reachable English MAX_TRANSLATION_LENGTH).
Local Abbreviation parts := (@parts LanguageEnum).

(** ** Handlers and renders *)

(** Running [c ;; k] is running [c], then [k]. *)
Lemma exec_seq {A : Type} (c : Handler unit) (k : Handler A) (w : World) :
  exec (bind c (fun _ => k)) w = exec k (exec c w).
Proof. unfold exec, bind. now destruct (c w). Qed.

(** The world after [getTranslatedText], for any captured [sourceText]: the
    request carries the argument unless the argument is empty, in which case
    it carries the captured [sourceText]. *)
Lemma getTranslatedText_exec (w : World) (captured selectedText : jsstring) :
  exec (getTranslatedText captured selectedText) w
  = {| component :=
         {| sourceText := selectedText;
            textId := Lodash.toString (N.succ (idCounter w));
            targetText := js_empty;
            showEntryPanel := showEntryPanel (component w);
            sourceTextRect := sourceTextRect (component w);
            targetLanguage := targetLanguage (component w) |};
       closures := closures w;
       scrollTimer := scrollTimer w;
       staleTimers := staleTimers w;
       idCounter := N.succ (idCounter w);
       port := port w ++ [{| uniqueId := Lodash.toString (N.succ (idCounter w));
                             text := js_or selectedText captured |}];
       storage := storage w |}.
Proof. reflexivity. Qed.

(** The scroll callback, whatever [showEntryPanel] it closes over: with
    [true] and a live selection it stores the selection's rectangle, and in
    every other case it does nothing. *)
Lemma handleScroll_exec (shown : bool) (selection : option Selection) (w : World) :
  exec (handleScroll shown selection) w
  = match selection with
    | Some live =>
        if shown && negb (isCollapsed live)
        then exec (setSourceTextRect (Value (getBoundingClientRect live))) w
        else w
    | None => w
    end.
Proof.
  unfold handleScroll. destruct shown, selection as [live|]; try reflexivity.
  simpl. destruct (isCollapsed live); [reflexivity|].
  simpl. now destruct (getBoundingClientRect live).
Qed.

(** A timer running out: the oldest stale timer if there is one, else the
    timer of the registered debounced function if it is running. *)
Lemma timerExpired_exec (registered : bool) (selection : option Selection)
    (w : World) :
  exec (timerExpired registered selection) w
  = match staleTimers w with
    | shown :: rest =>
        exec (handleScroll shown selection) (exec (setStaleTimers rest) w)
    | [] =>
        if scrollTimer w
        then exec (handleScroll registered selection) (exec (setScrollTimer false) w)
        else w
    end.
Proof.
  unfold timerExpired, exec at 1.
  destruct (staleTimers w) as [|shown rest].
  - destruct (scrollTimer w); [|reflexivity].
    exact (exec_seq (setScrollTimer false) (handleScroll registered selection) w).
  - exact (exec_seq (setStaleTimers rest) (handleScroll shown selection) w).
Qed.

(** What a timer running out does to the component state is what the
    wrapped function does when it tests [firingScroll]; it leaves the
    closures, the counter, the port and the storage calls alone. *)
Lemma timerExpired_fields (selection : option Selection) (w : World) :
  let w' := exec (timerExpired (scroll_showEntryPanel (closures w)) selection) w in
  component w' = component (exec (handleScroll (firingScroll w) selection) w) /\
  closures w' = closures w /\
  idCounter w' = idCounter w /\
  port w' = port w /\
  storage w' = storage w.
Proof.
  cbv zeta. rewrite timerExpired_exec. unfold firingScroll.
  destruct (staleTimers w) as [|shown rest].
  - destruct (scrollTimer w); simpl andb.
    + rewrite !handleScroll_exec. destruct selection as [live|]; [|repeat split].
      destruct (_ && _); repeat split.
    + rewrite handleScroll_exec. destruct selection as [live|]; repeat split.
  - rewrite !handleScroll_exec. destruct selection as [live|]; [|repeat split].
    destruct (_ && _); repeat split.
Qed.

(** No callback touches the closures: only a render does. *)
Lemma callback_closures (w : World) (e : Event) :
  closures (exec (callback w e) w) = closures w.
Proof.
  destruct e as [[sel|] | language | message | sel | localName | | rendered];
    unfold callback.
  - unfold onHotkey. destruct (isCollapsed sel); reflexivity.
  - reflexivity.
  - reflexivity.
  - destruct message as [i t | i t |]; unfold onMessage;
      try destruct (negb (jsstring_eqb i _)); reflexivity.
  - apply (timerExpired_fields sel w).
  - unfold handleMouseDown. destruct (jsstring_eqb _ _); reflexivity.
  - reflexivity.
  - reflexivity.
Qed.

(** A render after which [textId] and [showEntryPanel] are what they were
    runs no effect again. *)
Lemma rerender_unchanged (before : State) (w : World) :
  textId before = textId (component w) ->
  showEntryPanel before = showEntryPanel (component w) ->
  rerender before w = w.
Proof.
  intros Hid Hshown. unfold rerender, updateEffects.
  rewrite Hid, Hshown, jsstring_eqb_refl, Bool.eqb_reflx.
  now destruct w as [s [? ? ?] ? ? c p ?].
Qed.

(** After the render the listener and the registered scroll listener see
    the new [textId] and [showEntryPanel]; the hotkey callback sees what it
    saw. *)
Lemma step_closures_current (w : World) (e : Event) :
  closures_current w -> closures_current (step w e).
Proof.
  intros (Hhotkey & Hlistener & Hscroll).
  unfold closures_current, step, rerender, updateEffects. simpl.
  rewrite callback_closures. repeat split.
  - assumption.
  - destruct (jsstring_eqb _ _) eqn:Heq; [|reflexivity].
    apply jsstring_eqb_eq in Heq. congruence.
  - destruct (Bool.eqb _ _) eqn:Heq; [|reflexivity].
    apply Bool.eqb_prop in Heq. congruence.
Qed.

(** ** The port listener *)

(** With current closures a port message is handled by the listener of the
    current [textId], and the render that follows changes nothing more. *)
Lemma step_message (w : World) (message : Message) :
  closures_current w ->
  step w (PortMessage message)
  = exec (onMessage (textId (component w)) message) w.
Proof.
  intros (_ & Hlistener & _). unfold step, callback. rewrite Hlistener.
  apply rerender_unchanged;
    destruct message as [i t | i t |]; unfold onMessage;
    try destruct (negb (jsstring_eqb i _)); reflexivity.
Qed.

(** A message tagged with an id other than the current [textId] leaves the
    world as it is. *)
Lemma listener_ignores_other_ids (w : World) (message : Message) (id : jsstring) :
  closures_current w ->
  message_uniqueId message = Some id ->
  id <> textId (component w) ->
  step w (PortMessage message) = w.
Proof.
  intros Hc Hid Hne. rewrite step_message by assumption.
  destruct message as [i t | i e |]; simpl in Hid;
    try discriminate; injection Hid as ->;
    unfold onMessage; rewrite (jsstring_eqb_neq _ _ Hne); reflexivity.
Qed.

(** A fragment tagged with the current [textId] is appended to the display. *)
Lemma listener_appends_part (w : World) (fragment : jsstring) :
  closures_current w ->
  step w (PortMessage (TRANSLATE_TEXT_PART (textId (component w)) fragment))
  = exec (setTargetText (Value (targetText (component w) ++ fragment))) w.
Proof.
  intros Hc. rewrite step_message by assumption.
  unfold onMessage. rewrite jsstring_eqb_refl. reflexivity.
Qed.

(** An error tagged with the current [textId] replaces the display. *)
Lemma listener_shows_error (w : World) (error_message : jsstring) :
  closures_current w ->
  step w (PortMessage (TRANSLATE_TEXT_ERROR (textId (component w)) error_message))
  = exec (setTargetText (Value error_message)) w.
Proof.
  intros Hc. rewrite step_message by assumption.
  unfold onMessage. rewrite jsstring_eqb_refl. reflexivity.
Qed.

(** ** The scroll callback *)

(** What a scroll debounce timer running out does to the component state,
    the counter and the port. *)
Lemma step_scrollSettled (w : World) (selection : option Selection) :
  component (step w (ScrollSettled selection))
  = component (exec (handleScroll (firingScroll w) selection) w) /\
  idCounter (step w (ScrollSettled selection)) = idCounter w /\
  port (step w (ScrollSettled selection)) = port w /\
  storage (step w (ScrollSettled selection)) = storage w.
Proof.
  destruct (timerExpired_fields selection w) as (Hcomponent & _ & Hcounter & Hport & Hstorage).
  unfold step, rerender, callback. simpl. now repeat split.
Qed.

(** ** The display as a reducer *)

(** One event that starts no session keeps [textId] and changes the
    displayed text as the reducer says. *)
Lemma step_display (w : World) (e : Event) :
  closures_current w ->
  starts_session e = false ->
  textId (component (step w e)) = textId (component w) /\
  targetText (component (step w e))
  = display (textId (component w)) (targetText (component w)) e.
Proof.
  intros Hc Hquiet.
  destruct e as [[sel|] | language | message | sel | localName | | rendered];
    simpl in Hquiet; try discriminate.
  - apply negb_false_iff in Hquiet. unfold step, callback, onHotkey.
    rewrite Hquiet. split; reflexivity.
  - split; reflexivity.
  - rewrite step_message by assumption.
    destruct message as [i t | i t |]; simpl; try (split; reflexivity);
      destruct (jsstring_eqb i (textId (component w))); split; reflexivity.
  - destruct (step_scrollSettled w sel) as (-> & _).
    rewrite handleScroll_exec.
    destruct sel as [live|]; [|split; reflexivity].
    destruct (_ && _); split; reflexivity.
  - unfold step, callback, handleMouseDown.
    destruct (jsstring_eqb localName _); split; reflexivity.
  - split; reflexivity.
  - split; reflexivity.
Qed.

(** As long as no session is started, the displayed text is the reducer
    folded over the events, whatever else happens in between. *)
Lemma run_display (events : list Event) : forall w : World,
  closures_current w ->
  existsb starts_session events = false ->
  textId (component (run w events)) = textId (component w) /\
  targetText (component (run w events))
  = fold_left (display (textId (component w))) events (targetText (component w)).
Proof.
  induction events as [|e events IH]; intros w Hc Hquiet; [split; reflexivity|].
  simpl in Hquiet. apply orb_false_iff in Hquiet. destruct Hquiet as [He Hrest].
  destruct (step_display w e Hc He) as [Hid Htext].
  destruct (IH (step w e) (step_closures_current w e Hc) Hrest) as [Hid' Htext'].
  rewrite run_cons. simpl fold_left. rewrite Hid', Htext', Hid, Htext.
  split; reflexivity.
Qed.

(** ** Invariants *)

(** The invariants on session ids only look at the port, the counter,
    [textId] and [sourceText]. *)
Lemma session_invariants_frame (w w' : World) :
  port w' = port w ->
  idCounter w' = idCounter w ->
  textId (component w') = textId (component w) ->
  sourceText (component w') = sourceText (component w) ->
  ids_issued w /\ tracks_last_request w ->
  ids_issued w' /\ tracks_last_request w'.
Proof.
  unfold ids_issued, tracks_last_request, sessionIds.
  intros -> -> -> ->. auto.
Qed.

(** A session start keeps them, provided the request carries the text that
    becomes [sourceText]. *)
Lemma session_invariants_start (w : World) (captured selectedText : jsstring) :
  js_or selectedText captured = selectedText ->
  ids_issued w ->
  let w' := exec (getTranslatedText captured selectedText) w in
  ids_issued w' /\ tracks_last_request w'.
Proof.
  intros Hor (ns & Hids & Hnodup & Hle) w'. subst w'.
  rewrite getTranslatedText_exec, Hor. split.
  - exists (ns ++ [N.succ (idCounter w)]). unfold sessionIds in *. simpl.
    rewrite !map_app, Hids. simpl. repeat split.
    + apply NoDup_app; [assumption | repeat constructor; intros [] | ].
      intros n Hn [<- | []]. rewrite Forall_forall in Hle.
      specialize (Hle _ Hn). simpl in Hle. lia.
    + apply Forall_app. split.
      * eapply Forall_impl; [|exact Hle]. simpl. intros; lia.
      * repeat constructor. simpl. lia.
  - unfold tracks_last_request. simpl. rewrite rev_app_distr. simpl. auto.
Qed.

Lemma callback_session_invariants (w : World) (e : Event) :
  invariant w ->
  ids_issued (exec (callback w e) w) /\ tracks_last_request (exec (callback w e) w).
Proof.
  intros ((Hhotkey & Hlistener & Hscroll) & Hinv).
  destruct e as [[sel|] | language | message | sel | localName | | rendered];
    unfold callback.
  - (* hotkey on a selection *)
    unfold onHotkey. destruct (isCollapsed sel).
    + now apply (session_invariants_frame w).
    + rewrite Hhotkey, !exec_seq.
      apply session_invariants_start; [apply js_or_empty|].
      now apply (session_invariants_frame w).
  - (* hotkey without a selection object *)
    exact Hinv.
  - (* language picked *)
    unfold handleTargetLanguageChange. rewrite exec_seq.
    apply session_invariants_start; [apply js_or_same|].
    now apply (session_invariants_frame w).
  - (* port message *)
    apply (session_invariants_frame w); try assumption;
      unfold onMessage; destruct message as [i t | i t |]; try reflexivity;
      destruct (negb (jsstring_eqb i _)); reflexivity.
  - (* a scroll timer runs out *)
    destruct (timerExpired_fields sel w) as (Hcomponent & _ & Hcounter & Hport & _).
    apply (session_invariants_frame w); try assumption;
      rewrite Hcomponent, handleScroll_exec;
      destruct sel as [live|]; try reflexivity;
      destruct (_ && _); reflexivity.
  - (* pointer-down *)
    apply (session_invariants_frame w); try assumption;
      unfold handleMouseDown;
      destruct (jsstring_eqb localName (js "plasmo-csui")); reflexivity.
  - (* scroll *)
    exact Hinv.
  - (* the target language is rendered *)
    exact Hinv.
Qed.

Lemma step_invariant (w : World) (e : Event) :
  invariant w -> invariant (step w e).
Proof.
  intros Hinv. split.
  - apply step_closures_current, Hinv.
  - apply (session_invariants_frame (exec (callback w e) w));
      try reflexivity.
    now apply callback_session_invariants.
Qed.

Lemma reachable_invariant (w : World) : reachable w -> invariant w.
Proof.
  intros (c & events & ->).
  induction events as [|e events IH] using rev_ind.
  - repeat split. exists []. repeat split; constructor.
  - rewrite run_snoc. apply step_invariant, IH.
Qed.

Lemma reachable_closures_current (w : World) :
  reachable w -> closures_current w.
Proof. intros Hr. apply reachable_invariant, Hr. Qed.

Lemma mount_reachable (idCounter0 : N) :
  reachable (mount English idCounter0).
Proof. now exists idCounter0, []. Qed.

Lemma reachable_step (w : World) (e : Event) :
  reachable w -> reachable (step w e).
Proof.
  intros (c & events & ->). exists c, (events ++ [e]).
  now rewrite run_snoc.
Qed.

(** No two sessions of a reachable world share an id. *)
Lemma reachable_sessionIds_NoDup (w : World) :
  reachable w -> NoDup (sessionIds w).
Proof.
  intros Hr.
  destruct (reachable_invariant w Hr) as (_ & (ns & -> & Hnodup & _) & _).
  apply Injective_map_NoDup; [|assumption].
  intros m n. apply Lodash_toString_inj.
Qed.

(** In a reachable world the id lodash hands out next is new. *)
Lemma reachable_next_id_fresh (w : World) :
  reachable w ->
  ~ In (Lodash.toString (N.succ (idCounter w))) (sessionIds w) /\
  Lodash.toString (N.succ (idCounter w)) <> textId (component w).
Proof.
  intros Hr.
  destruct (reachable_invariant w Hr) as (_ & (ns & Hids & _ & Hle) & Hlast).
  assert (Hfresh : ~ In (Lodash.toString (N.succ (idCounter w))) (sessionIds w)).
  { rewrite Hids, in_map_iff. intros (n & Heq & Hn).
    apply Lodash_toString_inj in Heq. subst n.
    rewrite Forall_forall in Hle. specialize (Hle _ Hn). simpl in Hle. lia. }
  split; [assumption|].
  intros Heq. unfold tracks_last_request in Hlast.
  destruct (rev (port w)) as [|r rs] eqn:Hrev.
  - destruct Hlast as [Hid _]. rewrite Hid in Heq.
    unfold Lodash.toString in Heq.
    destruct (N.to_uint (N.succ (idCounter w))) eqn:Hu; simpl in Heq;
      try discriminate.
    apply (f_equal N.of_uint) in Hu.
    rewrite DecimalN.Unsigned.of_to in Hu. simpl in Hu. lia.
  - destruct Hlast as [Hid _]. apply Hfresh. rewrite Heq, <- Hid.
    unfold sessionIds. apply in_map. apply in_rev. rewrite Hrev. now left.
Qed.

(** ** Claims about the port listener *)

(** C1 (staleness guard).  Let session B be the one started last in a
    reachable world, and A any session started before it.  Then B's id is the
    current [textId], A's id differs from it, and a fragment or an error
    tagged with A's id leaves the whole world unchanged: the displayed text,
    every other state cell, the closures, the id counter and the port.  So
    does any sequence of such messages. *)
Theorem stale_session_response_inert
    (w : World) (earlier : list Request) (A B : Request) :
  reachable w ->
  port w = earlier ++ [B] ->
  In A earlier ->
  textId (component w) = uniqueId B /\
  uniqueId A <> uniqueId B /\
  (forall message,
     message_uniqueId message = Some (uniqueId A) ->
     step w (PortMessage message) = w) /\
  (forall messages,
     Forall (fun message => message_uniqueId message = Some (uniqueId A)) messages ->
     run w (map (@PortMessage LanguageEnum) messages) = w).
Proof.
  intros Hr Hport HA.
  destruct (reachable_invariant w Hr) as (Hc & _ & Hlast).
  pose proof (reachable_sessionIds_NoDup w Hr) as Hnodup.
  unfold tracks_last_request in Hlast. unfold sessionIds in Hnodup.
  rewrite Hport in Hlast, Hnodup.
  rewrite rev_app_distr in Hlast. simpl in Hlast. destruct Hlast as [HB _].
  rewrite map_app in Hnodup. simpl in Hnodup.
  assert (Hne : uniqueId A <> uniqueId B).
  { intros Heq. apply NoDup_remove_2 in Hnodup. apply Hnodup.
    rewrite app_nil_r, <- Heq. now apply in_map. }
  assert (Hone : forall message,
             message_uniqueId message = Some (uniqueId A) ->
             step w (PortMessage message) = w).
  { intros message Hmsg.
    apply (listener_ignores_other_ids w message (uniqueId A) Hc Hmsg).
    now rewrite <- HB. }
  repeat split; [now symmetry | assumption | assumption | ].
  intros messages Hall.
  induction Hall as [|message messages Hmsg _ IH]; [reflexivity|].
  simpl map. now rewrite run_cons, Hone.
Qed.

(** Fragments tagged with the current [textId] accumulate. *)
Lemma run_fragments (fragments : list jsstring) : forall w : World,
  closures_current w ->
  run w (parts (textId (component w)) fragments)
  = exec (setTargetText (Value (targetText (component w) ++ List.concat fragments))) w.
Proof.
  induction fragments as [|fragment fragments IH]; intros w Hc.
  - simpl. rewrite app_nil_r. now destruct w as [[? ? ? ? ? ?] ? ? ? ? ? ?].
  - change (parts (textId (component w)) (fragment :: fragments))
      with (@PortMessage LanguageEnum
              (TRANSLATE_TEXT_PART (textId (component w)) fragment)
            :: parts (textId (component w)) fragments).
    rewrite run_cons, listener_appends_part by assumption.
    set (w1 := exec (setTargetText (Value (targetText (component w) ++ fragment))) w).
    change (textId (component w)) with (textId (component w1)).
    rewrite IH by exact Hc. subst w1. simpl List.concat. cbn.
    now rewrite <- app_assoc.
Qed.

(** C2 (fragment accumulation).  In a reachable world, a sequence of
    TRANSLATE_TEXT_PART messages tagged with the current [textId], handled
    one after the other, appends the fragments to the displayed text in
    arrival order and changes nothing else.  If the world is the one a
    session start left behind, the displayed text is then exactly the
    concatenation of the fragments.  More generally, over any events that
    start no session the displayed text is built by the reducer [display]:
    other events and messages with other ids in between do not disturb the
    accumulation. *)
Theorem fragments_accumulate (w : World) (fragments : list jsstring) :
  reachable w ->
  let w' := run w (parts (textId (component w)) fragments) in
  targetText (component w') = targetText (component w) ++ List.concat fragments /\
  w' = exec (setTargetText
               (Value (targetText (component w) ++ List.concat fragments))) w /\
  (forall before started,
     session_started before w started ->
     targetText (component w') = List.concat fragments) /\
  (forall events,
     existsb starts_session events = false ->
     targetText (component (run w events))
     = fold_left (display (textId (component w))) events (targetText (component w))).
Proof.
  intros Hr w'. subst w'.
  pose proof (reachable_closures_current w Hr) as Hc.
  rewrite run_fragments by assumption.
  repeat split.
  - intros before started (_ & _ & Hempty & _). simpl. now rewrite Hempty.
  - intros events Hquiet. now apply run_display.
Qed.

(** C5 (error surfacing).  In a reachable world, a TRANSLATE_TEXT_ERROR
    message tagged with the current [textId] makes the displayed text exactly
    the error's message, whatever was displayed before, and changes nothing
    else; tagged with any other id it changes nothing at all. *)
Theorem error_surfacing (w : World) (id error_message : jsstring) :
  reachable w ->
  let w' := step w (PortMessage (TRANSLATE_TEXT_ERROR id error_message)) in
  (id = textId (component w) ->
     targetText (component w') = error_message /\
     w' = exec (setTargetText (Value error_message)) w) /\
  (id <> textId (component w) -> w' = w).
Proof.
  intros Hr w'. subst w'.
  pose proof (reachable_closures_current w Hr) as Hc. split.
  - intros ->. now rewrite listener_shows_error.
  - intros Hne. now apply (listener_ignores_other_ids w _ id).
Qed.

(** C10 (no terminal state).  The state has no status cell, and the listener
    never refuses a message tagged with the current [textId]: in every
    reachable world such a fragment is appended and such an error is
    displayed.  In particular a fragment that follows an error of the same
    session is appended to the displayed error message. *)
Theorem no_terminal_state (w : World) (error_message fragment : jsstring) :
  reachable w ->
  let id := textId (component w) in
  let errored := step w (PortMessage (TRANSLATE_TEXT_ERROR id error_message)) in
  let after := step errored (PortMessage (TRANSLATE_TEXT_PART id fragment)) in
  targetText (component errored) = error_message /\
  textId (component errored) = id /\
  targetText (component after) = error_message ++ fragment /\
  targetText (component (step w (PortMessage (TRANSLATE_TEXT_PART id fragment))))
  = targetText (component w) ++ fragment.
Proof.
  intros Hr. pose proof (reachable_closures_current w Hr) as Hc.
  cbv zeta. rewrite listener_shows_error by assumption.
  set (errored := exec (setTargetText (Value error_message)) w).
  change (textId (component w)) with (textId (component errored)) at 2.
  rewrite !listener_appends_part by exact Hc. repeat split.
Qed.

(** ** Claims about starting a session *)

(** A call of [getTranslatedText] whose request text is its argument starts
    a session for that argument. *)
Lemma getTranslatedText_starts (w0 w : World) (captured selectedText : jsstring) :
  reachable w0 ->
  port w = port w0 -> idCounter w = idCounter w0 ->
  textId (component w) = textId (component w0) ->
  js_or selectedText captured = selectedText ->
  session_started w0 (exec (getTranslatedText captured selectedText) w) selectedText.
Proof.
  intros Hr Hport Hc Hid Hor.
  destruct (reachable_next_id_fresh w0 Hr) as [Hfresh Hne].
  rewrite getTranslatedText_exec, Hor, Hport, Hc. unfold session_started. simpl.
  repeat split; assumption.
Qed.

(** The render after the callback does not change what [session_started]
    looks at. *)
Lemma session_started_rerender (w w' : World) (before : State) (started : jsstring) :
  session_started w w' started ->
  session_started w (rerender before w') started.
Proof. intros H. exact H. Qed.

(** C3 (session start).  In every reachable world, a session start takes a
    fresh id from lodash, different from the id of every earlier session and
    from the current [textId], empties the displayed text, makes the started
    text the [sourceText] and posts exactly one request, carrying the new id
    and the started text.  This holds for [getTranslatedText] in both closures
    it is called in (captured [sourceText] empty, as for the hotkey, or equal
    to the argument, as for the picker) and for every argument, the empty
    string included; hence for the hotkey on a live selection, which starts
    the trimmed and capped selection text, and for the language picker, which
    starts the current [sourceText]. *)
Theorem session_start (w : World) :
  reachable w ->
  (forall captured selectedText,
     captured = js_empty \/ captured = selectedText ->
     session_started w (exec (getTranslatedText captured selectedText) w)
                     selectedText) /\
  (forall selection,
     isCollapsed selection = false ->
     session_started w (step w (Hotkey (Some selection)))
                     (slice (trim (toString selection)) 0 MAX_TRANSLATION_LENGTH)) /\
  (forall language,
     session_started w (step w (LanguagePicked language))
                     (sourceText (component w))).
Proof.
  intros Hr. destruct (reachable_closures_current w Hr) as (Hhotkey & _).
  split; [|split].
  - intros captured selectedText [-> | ->];
      apply getTranslatedText_starts; auto using js_or_empty, js_or_same.
  - intros selection Hlive. unfold step. apply session_started_rerender.
    unfold callback, onHotkey. rewrite Hlive, Hhotkey, !exec_seq.
    apply getTranslatedText_starts; auto using js_or_empty.
  - intros language. unfold step. apply session_started_rerender.
    unfold callback, handleTargetLanguageChange. rewrite exec_seq.
    apply getTranslatedText_starts; auto using js_or_same.
Qed.

(** C4 (language-change restart).  Let A be the current session of a
    reachable world.  When the picker selects a language, the language is
    handed to the storage setter, the displayed text becomes empty, and a new
    session is started: its id is new (neither A's nor that of any earlier
    session), and its request and the [sourceText] cell carry the same text
    as A's request. *)
Theorem language_change_restarts
    (w : World) (language : LanguageEnum) (earlier : list Request) (A : Request) :
  reachable w ->
  port w = earlier ++ [A] ->
  let w' := step w (LanguagePicked language) in
  storage w' = storage w ++ [language] /\
  targetText (component w') = js_empty /\
  textId (component w') <> uniqueId A /\
  ~ In (textId (component w')) (sessionIds w) /\
  sourceText (component w') = text A /\
  port w' = port w ++ [{| uniqueId := textId (component w'); text := text A |}].
Proof.
  intros Hr Hport w'.
  destruct (reachable_invariant w Hr) as (_ & _ & Hlast).
  unfold tracks_last_request in Hlast. rewrite Hport, rev_app_distr in Hlast.
  simpl in Hlast. destruct Hlast as [HidA HtextA].
  destruct (reachable_next_id_fresh w Hr) as [Hfresh Hne].
  subst w'. unfold step, rerender, callback, handleTargetLanguageChange.
  rewrite exec_seq, getTranslatedText_exec. simpl.
  rewrite js_or_same, HidA, HtextA. repeat split; assumption.
Qed.

(** ** Claims about the overlay *)

(** C7 (anchor computation).  For every rectangle the anchor is
    [x = left + (right - left) / 2], [y = bottom + 10], in JavaScript number
    arithmetic; after the hotkey on a live selection, and after a scroll
    recompute on a live selection (a scroll debounce timer running out whose
    callback closes over a shown overlay), the anchor is this formula on the
    selection's client rectangle. *)
Theorem anchor_computation (w : World) (selection : Selection) :
  let rect := getBoundingClientRect selection in
  let anchor := {| x := left rect + (right rect - left rect) / 2;
                   y := bottom rect + 10 |}%float in
  entryPanelPosition rect = anchor /\
  (isCollapsed selection = false ->
     entryPanelPosition
       (sourceTextRect (component (step w (Hotkey (Some selection))))) = anchor) /\
  (isCollapsed selection = false ->
   firingScroll w = true ->
     entryPanelPosition
       (sourceTextRect (component (step w (ScrollSettled (Some selection))))) = anchor).
Proof.
  cbv zeta. repeat split.
  - intros Hlive. unfold step, callback, onHotkey. rewrite Hlive. reflexivity.
  - intros Hlive Hfiring.
    destruct (step_scrollSettled w (Some selection)) as (-> & _).
    rewrite handleScroll_exec, Hfiring, Hlive. reflexivity.
Qed.

(** C8 (capture truncation).  With a non-negative cap, the text captured by
    the hotkey on a live selection is the selection's text with the white
    space at both ends removed, cut to its first [MAX_TRANSLATION_LENGTH]
    code units; so it is never longer than the cap.  The handler always
    completes, and in a reachable world the captured text is what the
    request carries. *)
Theorem capture_truncation (w : World) (selection : Selection) :
  (0 <= MAX_TRANSLATION_LENGTH)%Z ->
  isCollapsed selection = false ->
  let w' := step w (Hotkey (Some selection)) in
  let captured := sourceText (component w') in
  let trimmed := trim (toString selection) in
  captured = firstn (Z.to_nat MAX_TRANSLATION_LENGTH) trimmed /\
  (Z.of_nat (List.length captured) <= MAX_TRANSLATION_LENGTH)%Z /\
  (exists pre post,
     toString selection = pre ++ trimmed ++ post /\
     Forall (fun c => is_white_space c = true) pre /\
     Forall (fun c => is_white_space c = true) post /\
     (forall c rest, trimmed = c :: rest -> is_white_space c = false) /\
     (forall c front, trimmed = front ++ [c] -> is_white_space c = false)) /\
  (reachable w ->
     port w' = port w ++ [{| uniqueId := textId (component w'); text := captured |}]).
Proof.
  intros Hcap Hlive w' captured trimmed.
  assert (Hcaptured : captured = slice trimmed 0 MAX_TRANSLATION_LENGTH).
  { subst captured w'. unfold step, callback, onHotkey. rewrite Hlive. reflexivity. }
  split; [|split; [|split]].
  - now rewrite Hcaptured, slice_prefix.
  - rewrite Hcaptured. now apply slice_length.
  - apply trim_spec.
  - intros Hr. destruct (reachable_closures_current w Hr) as (Hhotkey & _).
    subst captured w'. unfold step, rerender, callback, onHotkey.
    rewrite Hlive, Hhotkey, !exec_seq, getTranslatedText_exec. simpl.
    now rewrite js_or_empty.
Qed.

(** C6 (zeroed visual state), as the code has it.  The hotkey on a collapsed
    selection hides the overlay; the hotkey without a selection object
    changes nothing.  A pointer-down on an element whose [localName] is not
    [plasmo-csui] hides the overlay and resets [sourceTextRect] to the zero
    rectangle; a pointer-down on a [plasmo-csui] element changes nothing. *)
Theorem zeroed_visual_state (w : World) :
  (forall selection,
     isCollapsed selection = true ->
     showEntryPanel (component (step w (Hotkey (Some selection)))) = false) /\
  step w (Hotkey None) = w /\
  (forall localName,
     localName <> js "plasmo-csui" ->
     let w' := step w (MouseDown localName) in
     showEntryPanel (component w') = false /\
     sourceTextRect (component w') = zeroRect) /\
  step w (MouseDown (js "plasmo-csui")) = w.
Proof.
  split; [|split; [|split]].
  - intros selection Hcollapsed. unfold step, callback, onHotkey.
    now rewrite Hcollapsed.
  - now apply rerender_unchanged.
  - intros localName Hother w'. subst w'. unfold step, callback, handleMouseDown.
    rewrite (jsstring_eqb_neq _ _ Hother). split; reflexivity.
  - now apply rerender_unchanged.
Qed.

(** * Further properties of the component *)

Local Abbreviation capturedText := (capturedText MAX_TRANSLATION_LENGTH).
Local Abbreviation capturedSource := (capturedSource MAX_TRANSLATION_LENGTH).
Local Abbreviation requestTexts := (requestTexts MAX_TRANSLATION_LENGTH).

(** ** Induction over the reachable worlds *)

Lemma reachable_induction (P : World -> Prop) :
  (forall idCounter0, P (mount English idCounter0)) ->
  (forall w e, reachable w -> P w -> P (step w e)) ->
  forall w, reachable w -> P w.
Proof.
  intros Hmount Hstep w (c & events & ->).
  induction events as [|e events IH] using rev_ind.
  - apply Hmount.
  - rewrite run_snoc. apply Hstep; [|exact IH].
    now exists c, events.
Qed.

(** ** More string facts *)

Lemma trimStart_white (s : jsstring) :
  Forall (fun c => is_white_space c = true) s -> trimStart s = [].
Proof.
  induction 1 as [|c s Hc _ IH]; [reflexivity|]. simpl. now rewrite Hc.
Qed.

Lemma trim_white (s : jsstring) :
  Forall (fun c => is_white_space c = true) s -> trim s = [].
Proof. intros Hs. unfold trim. now rewrite trimStart_white. Qed.

(** [slice(0, n)] for every integer [n]: a negative [n] counts from the end. *)
Lemma slice_from_start (s : jsstring) (n : Z) :
  slice s 0 n
  = firstn (Z.to_nat (if (n <? 0)%Z then Z.of_nat (List.length s) + n else n)) s.
Proof.
  destruct (n <? 0)%Z eqn:Hneg.
  - apply Z.ltb_lt in Hneg. unfold slice, slice_index.
    change (0 <? 0)%Z with false. cbv iota.
    apply Z.ltb_lt in Hneg. rewrite Hneg. apply Z.ltb_lt in Hneg.
    rewrite (Z.min_l 0) by lia.
    destruct (Z.max (Z.of_nat (List.length s) + n) 0 <=? 0)%Z eqn:Hle.
    + apply Z.leb_le in Hle.
      replace (Z.to_nat (Z.of_nat (List.length s) + n)) with 0%nat by lia.
      reflexivity.
    + apply Z.leb_gt in Hle. simpl skipn. f_equal. lia.
  - apply Z.ltb_ge in Hneg. now apply slice_prefix.
Qed.

(** An id made by lodash is never the empty string. *)
Lemma Lodash_toString_nonempty (n : N) : Lodash.toString n <> js_empty.
Proof.
  unfold Lodash.toString. destruct (N.to_uint n) eqn:Hu; try discriminate.
  pose proof (f_equal N.of_uint Hu) as Hn.
  rewrite DecimalN.Unsigned.of_to in Hn. simpl in Hn. subst n.
  discriminate Hu.
Qed.

(** ** One event, cell by cell *)

Lemma step_visibility (w : World) (e : Event) :
  showEntryPanel (component (step w e))
  = visibility (showEntryPanel (component w)) e.
Proof.
  destruct e as [[sel|] | language | message | sel | localName | | rendered].
  - unfold step, callback, onHotkey; simpl.
    destruct (isCollapsed sel); reflexivity.
  - reflexivity.
  - reflexivity.
  - unfold step, callback; simpl.
    destruct message as [i t | i t |]; unfold onMessage;
      try destruct (negb (jsstring_eqb i _)); reflexivity.
  - destruct (step_scrollSettled w sel) as (-> & _).
    rewrite handleScroll_exec. destruct sel as [live|]; [|reflexivity].
    destruct (_ && _); reflexivity.
  - unfold step, callback, handleMouseDown; simpl.
    destruct (jsstring_eqb localName _); reflexivity.
  - reflexivity.
  - reflexivity.
Qed.

(** What one event does to the rendered target language and to the calls
    of the storage setter. *)
Lemma step_targetLanguage (w : World) (e : Event) :
  targetLanguage (component (step w e))
  = renderedLanguage (targetLanguage (component w)) e /\
  storage (step w e) = storage w ++ pickedLanguages [e].
Proof.
  destruct e as [[sel|] | language | message | sel | localName | | rendered].
  - unfold step, callback, onHotkey; simpl. rewrite app_nil_r.
    destruct (isCollapsed sel); split; reflexivity.
  - simpl. rewrite app_nil_r. split; reflexivity.
  - split; reflexivity.
  - unfold step, callback; simpl. rewrite app_nil_r.
    destruct message as [i t | i t |]; unfold onMessage;
      try destruct (negb (jsstring_eqb i _)); split; reflexivity.
  - destruct (step_scrollSettled w sel) as (-> & _ & _ & ->).
    simpl. rewrite app_nil_r, handleScroll_exec.
    destruct sel as [live|]; [|split; reflexivity].
    destruct (_ && _); split; reflexivity.
  - unfold step, callback, handleMouseDown; simpl. rewrite app_nil_r.
    destruct (jsstring_eqb localName _); split; reflexivity.
  - simpl. rewrite app_nil_r. split; reflexivity.
  - simpl. rewrite app_nil_r. split; reflexivity.
Qed.

(** What one event does to [sourceText], the counter and the port. *)
Lemma step_session (w : World) (e : Event) :
  closures_current w ->
  sourceText (component (step w e))
  = capturedSource (sourceText (component w)) e /\
  idCounter (step w e)
  = (if starts_session e then N.succ (idCounter w) else idCounter w) /\
  port (step w e)
  = port w ++
    (if starts_session e
     then [{| uniqueId := Lodash.toString (N.succ (idCounter w));
              text := capturedSource (sourceText (component w)) e |}]
     else []).
Proof.
  intros Hc. pose proof Hc as (Hhotkey & _ & _).
  destruct e as [[sel|] | language | message | sel | localName | | rendered].
  - unfold step, rerender, callback, onHotkey, starts_session.
    simpl (capturedSource _ _).
    destruct (isCollapsed sel).
    + simpl. now rewrite app_nil_r.
    + rewrite Hhotkey, !exec_seq, getTranslatedText_exec.
      cbn [component sourceText idCounter port negb]. now rewrite js_or_empty.
  - simpl. now rewrite app_nil_r.
  - unfold step, rerender, callback, handleTargetLanguageChange.
    rewrite exec_seq, getTranslatedText_exec. simpl. now rewrite js_or_same.
  - rewrite step_message by assumption. simpl. rewrite app_nil_r.
    destruct message as [i t | i t |]; unfold onMessage;
      try destruct (negb (jsstring_eqb i _)); repeat split.
  - destruct (step_scrollSettled w sel) as (-> & -> & -> & _).
    simpl. rewrite app_nil_r, handleScroll_exec.
    destruct sel as [live|]; [|repeat split].
    destruct (_ && _); repeat split.
  - unfold step, callback, handleMouseDown. simpl. rewrite app_nil_r.
    destruct (jsstring_eqb localName _); repeat split.
  - simpl. rewrite app_nil_r. repeat split.
  - simpl. rewrite app_nil_r. repeat split.
Qed.

Lemma requestTexts_length (events : list Event) : forall source,
  List.length (requestTexts source events)
  = List.length (filter (@starts_session LanguageEnum) events).
Proof.
  induction events as [|e events IH]; intros source; [reflexivity|].
  simpl. destruct (starts_session e); simpl; now rewrite IH.
Qed.

Lemma run_session (events : list Event) : forall w : World,
  closures_current w ->
  sourceText (component (run w events))
  = fold_left capturedSource events (sourceText (component w)) /\
  idCounter (run w events)
  = (idCounter w
     + N.of_nat (List.length (requestTexts (sourceText (component w)) events)))%N /\
  port (run w events)
  = port w ++ requests (idCounter w)
                       (requestTexts (sourceText (component w)) events).
Proof.
  induction events as [|e events IH]; intros w Hc.
  - simpl. rewrite app_nil_r, N.add_0_r. repeat split.
  - destruct (step_session w e Hc) as (Hsource & Hcounter & Hport).
    destruct (IH (step w e) (step_closures_current w e Hc))
      as (Hsource' & Hcounter' & Hport').
    rewrite run_cons, Hsource', Hcounter', Hport', Hsource, Hcounter, Hport.
    simpl fold_left. simpl requestTexts.
    destruct (starts_session e); simpl requests; simpl List.length.
    + repeat split; [lia | now rewrite <- app_assoc].
    + rewrite app_nil_r. repeat split.
Qed.

(** The request texts all satisfy what the empty string and every captured
    text satisfy. *)
Lemma request_texts_invariant (Q : jsstring -> Prop) :
  Q js_empty ->
  (forall selection, Q (capturedText selection)) ->
  forall w, reachable w ->
    Q (sourceText (component w)) /\ Forall (fun r => Q (text r)) (port w).
Proof.
  intros Hempty Hcaptured. apply reachable_induction.
  - intros c. split; [exact Hempty | constructor].
  - intros w e Hr [Hsource Hport].
    destruct (step_session w e (reachable_closures_current w Hr))
      as (Hsource' & _ & Hport').
    assert (Hnew : Q (capturedSource (sourceText (component w)) e)).
    { destruct e as [[sel|] | | | | | | ]; simpl; try assumption.
      destruct (isCollapsed sel); [assumption | apply Hcaptured]. }
    rewrite Hsource', Hport'. split; [exact Hnew|].
    apply Forall_app. split; [exact Hport|].
    destruct (starts_session e); repeat constructor. exact Hnew.
Qed.

(** ** Properties *)

(** X1 (overlay visibility).  Over any run, from any world, the overlay's
    visibility is decided by the hotkey and pointer-down events alone: the
    hotkey on a selection object shows it if the selection is live and hides
    it if collapsed, a pointer-down outside [plasmo-csui] hides it, and no
    other event (port message, scroll, language choice, hotkey without a
    selection object, pointer-down on the overlay) changes it. *)
Theorem overlay_visibility (w : World) (events : list Event) :
  showEntryPanel (component (run w events))
  = fold_left visibility events (showEntryPanel (component w)).
Proof.
  revert w. induction events as [|e events IH]; intros w; [reflexivity|].
  rewrite run_cons, IH, step_visibility. reflexivity.
Qed.

(** X2 (port messages only touch the display).  Whatever arrives on the
    port, of whatever type and id, and whatever the listener closes over,
    the world afterwards is the world before with at most another displayed
    text: no request is sent, and the session id, source text, overlay,
    rectangle, language, closures and id counter stay as they are. *)
Theorem port_message_frame (w : World) (message : Message) :
  exists shown,
    step w (PortMessage message) = exec (setTargetText (Value shown)) w.
Proof.
  assert (Hsame : exec (setTargetText (Value (targetText (component w)))) w = w).
  { now destruct w as [[? ? ? ? ? ?] ? ? ? ? ? ?]. }
  unfold step, callback.
  destruct message as [i t | i t |]; unfold onMessage;
    try destruct (negb (jsstring_eqb i _)).
  - exists (targetText (component w)). rewrite Hsame. now apply rerender_unchanged.
  - exists (targetText (component w) ++ t). now apply rerender_unchanged.
  - exists (targetText (component w)). rewrite Hsame. now apply rerender_unchanged.
  - exists t. now apply rerender_unchanged.
  - exists (targetText (component w)). rewrite Hsame. now apply rerender_unchanged.
Qed.

(** X3 (the port as a function of the events).  From a reachable world, a
    run posts exactly one request per session start and none otherwise, in
    order; the requests are numbered consecutively from the id counter, in
    decimal; a hotkey start carries the text captured from its selection and
    a picker start carries the text of the latest capture before it (the
    current source text).  The counter advances by the number of starts and
    [sourceText] ends as the latest capture. *)
Theorem port_trace (w : World) (events : list Event) :
  reachable w ->
  let texts := requestTexts (sourceText (component w)) events in
  port (run w events) = port w ++ requests (idCounter w) texts /\
  List.length texts = List.length (filter (@starts_session LanguageEnum) events) /\
  idCounter (run w events) = (idCounter w + N.of_nat (List.length texts))%N /\
  sourceText (component (run w events))
  = fold_left capturedSource events (sourceText (component w)).
Proof.
  intros Hr texts. subst texts.
  destruct (run_session events w (reachable_closures_current w Hr))
    as (Hsource & Hcounter & Hport).
  repeat split; try assumption. apply requestTexts_length.
Qed.

(** X4 (request size).  With a non-negative cap, no request ever posted
    carries more than [MAX_TRANSLATION_LENGTH] code units, whether it was
    sent by the hotkey or re-sent by the language picker, and [sourceText]
    never holds more. *)
Theorem request_texts_bounded (w : World) :
  (0 <= MAX_TRANSLATION_LENGTH)%Z ->
  reachable w ->
  (Z.of_nat (List.length (sourceText (component w))) <= MAX_TRANSLATION_LENGTH)%Z /\
  Forall (fun r => (Z.of_nat (List.length (text r)) <= MAX_TRANSLATION_LENGTH)%Z)
         (port w).
Proof.
  intros Hcap.
  apply (request_texts_invariant
           (fun t => (Z.of_nat (List.length t) <= MAX_TRANSLATION_LENGTH)%Z)).
  - exact Hcap.
  - intros selection. now apply slice_length.
Qed.

(** X5 (no leading white space).  Whatever the cap, no request ever posted
    starts with a white-space code unit, and neither does [sourceText]. *)
Theorem request_texts_start_trimmed (w : World) :
  reachable w ->
  (forall c rest, sourceText (component w) = c :: rest -> is_white_space c = false) /\
  Forall (fun r => forall c rest, text r = c :: rest -> is_white_space c = false)
         (port w).
Proof.
  apply (request_texts_invariant
           (fun t => forall c rest, t = c :: rest -> is_white_space c = false)).
  - discriminate.
  - intros selection c rest Hhead.
    change (capturedText selection)
      with (slice (trim (toString selection)) 0 MAX_TRANSLATION_LENGTH) in Hhead.
    rewrite slice_from_start in Hhead.
    destruct (trim_spec (toString selection)) as (_ & _ & _ & _ & _ & Hfirst & _).
    destruct (trim (toString selection)) as [|c' rest'].
    + rewrite firstn_nil in Hhead. discriminate.
    + destruct (Z.to_nat _); simpl in Hhead; [discriminate|].
      injection Hhead as <- _. now apply (Hfirst c' rest').
Qed.

(** X6 (effects follow the state).  In every reachable world the port
    listener compares with the current [textId], because its effect runs
    again whenever [textId] changes, and the debounced function registered as
    scroll listener closes over the current [showEntryPanel], because the
    scroll effect runs again whenever [showEntryPanel] changes; the hotkey
    callback, bound once, still sees the empty [sourceText] of the first
    render.  (Debounce timers left running by earlier runs of the scroll
    effect are not covered: see [firingScroll].) *)
Theorem effects_follow_state (w : World) :
  reachable w ->
  listener_textId (closures w) = textId (component w) /\
  scroll_showEntryPanel (closures w) = showEntryPanel (component w) /\
  hotkey_sourceText (closures w) = js_empty.
Proof.
  intros Hr. destruct (reachable_invariant w Hr) as ((Hhotkey & Hlistener & Hscroll) & _).
  repeat split; assumption.
Qed.

(** X7 (when a message changes anything).  In a reachable world a fragment
    leaves the world unchanged exactly when its id is not the current
    [textId] or it is empty; an error leaves the world unchanged exactly when
    its id is not the current [textId] or its message is already displayed;
    a message of any other type always leaves it unchanged. *)
Theorem message_effect_exact (w : World) (id payload : jsstring) :
  reachable w ->
  (step w (PortMessage (TRANSLATE_TEXT_PART id payload)) = w
   <-> id <> textId (component w) \/ payload = js_empty) /\
  (step w (PortMessage (TRANSLATE_TEXT_ERROR id payload)) = w
   <-> id <> textId (component w) \/ payload = targetText (component w)) /\
  step w (PortMessage OTHER_MESSAGE) = w.
Proof.
  intros Hr. pose proof (reachable_closures_current w Hr) as Hc.
  assert (Hsame : exec (setTargetText (Value (targetText (component w)))) w = w).
  { now destruct w as [[? ? ? ? ? ?] ? ? ? ? ? ?]. }
  split; [|split].
  - split.
    + intros Hstep. destruct (jsstring_eqb id (textId (component w))) eqn:Heq.
      * apply jsstring_eqb_eq in Heq. subst id. right.
        rewrite listener_appends_part in Hstep by assumption.
        apply (f_equal (fun w' => targetText (component w'))) in Hstep.
        simpl in Hstep.
        apply (app_inv_head (targetText (component w))).
        now rewrite app_nil_r.
      * left. intros ->. now rewrite jsstring_eqb_refl in Heq.
    + intros [Hne | ->].
      * now apply (listener_ignores_other_ids w _ id).
      * destruct (jsstring_eqb id (textId (component w))) eqn:Heq.
        -- apply jsstring_eqb_eq in Heq. subst id.
           rewrite listener_appends_part by assumption.
           unfold js_empty. now rewrite app_nil_r.
        -- apply (listener_ignores_other_ids w _ id); [assumption|reflexivity|].
           intros ->. now rewrite jsstring_eqb_refl in Heq.
  - split.
    + intros Hstep. destruct (jsstring_eqb id (textId (component w))) eqn:Heq.
      * apply jsstring_eqb_eq in Heq. subst id. right.
        rewrite listener_shows_error in Hstep by assumption.
        apply (f_equal (fun w' => targetText (component w'))) in Hstep.
        exact Hstep.
      * left. intros ->. now rewrite jsstring_eqb_refl in Heq.
    + intros [Hne | ->].
      * now apply (listener_ignores_other_ids w _ id).
      * destruct (jsstring_eqb id (textId (component w))) eqn:Heq.
        -- apply jsstring_eqb_eq in Heq. subst id.
           now rewrite listener_shows_error.
        -- apply (listener_ignores_other_ids w _ id); [assumption|reflexivity|].
           intros ->. now rewrite jsstring_eqb_refl in Heq.
  - now rewrite step_message.
Qed.

Lemma pickedLanguages_cons (e : Event) (events : list Event) :
  pickedLanguages (e :: events)
  = pickedLanguages [e] ++ @pickedLanguages LanguageEnum events.
Proof. now destruct e. Qed.

(** X8 (target language).  Over any run, from any world, the storage setter
    is called once per language choice, with the picked language, in order,
    and by nothing else; and no handler of the component changes the rendered
    target language, which is the value the storage hook rendered last. *)
Theorem target_language_follows_picker (w : World) (events : list Event) :
  storage (run w events) = storage w ++ pickedLanguages events /\
  targetLanguage (component (run w events))
  = fold_left renderedLanguage events (targetLanguage (component w)).
Proof.
  revert w. induction events as [|e events IH]; intros w.
  - simpl. now rewrite app_nil_r.
  - destruct (step_targetLanguage w e) as [Hrendered Hstorage].
    destruct (IH (step w e)) as [IHstorage IHrendered].
    rewrite run_cons, IHstorage, IHrendered, Hrendered, Hstorage.
    rewrite (pickedLanguages_cons e events), app_assoc. split; reflexivity.
Qed.

(** X9 (what a scroll recompute can change).  When a scroll debounce timer
    runs out, in any world and on any selection, every state cell other than
    [sourceTextRect], the id counter, the port and the storage calls stay as
    they are.  The rectangle becomes the selection's client rectangle if the
    callback that runs closes over a shown overlay and the selection is
    live, and the whole component state stays as it is otherwise.  In a
    reachable world with no debounce timer left over from an earlier run of
    the scroll effect, the callback that runs is the registered one and
    tests the current [showEntryPanel]. *)
Theorem scroll_recompute_effect (w : World) (selection : option Selection) :
  let w' := step w (ScrollSettled selection) in
  (textId (component w') = textId (component w) /\
   sourceText (component w') = sourceText (component w) /\
   targetText (component w') = targetText (component w) /\
   showEntryPanel (component w') = showEntryPanel (component w) /\
   targetLanguage (component w') = targetLanguage (component w) /\
   idCounter w' = idCounter w /\
   port w' = port w /\
   storage w' = storage w) /\
  (forall live,
     selection = Some live ->
     isCollapsed live = false ->
     firingScroll w = true ->
     sourceTextRect (component w') = getBoundingClientRect live) /\
  (firingScroll w = false \/
   selection = None \/
   (exists dead, selection = Some dead /\ isCollapsed dead = true) ->
     component w' = component w) /\
  (reachable w ->
   staleTimers w = [] ->
   scrollTimer w = true ->
   firingScroll w = showEntryPanel (component w)).
Proof.
  intros w'. subst w'.
  destruct (step_scrollSettled w selection) as (-> & -> & -> & ->).
  rewrite handleScroll_exec. split; [|split; [|split]].
  - destruct selection as [live|]; [|repeat split].
    destruct (_ && _); repeat split.
  - intros live -> Hlive Hfiring. rewrite Hfiring, Hlive. reflexivity.
  - intros [Hquiet | [-> | (dead & -> & Hdead)]].
    + rewrite Hquiet. now destruct selection.
    + reflexivity.
    + rewrite Hdead. now rewrite andb_false_r.
  - intros Hr Hstale Hrunning.
    destruct (reachable_closures_current w Hr) as (_ & _ & Hscroll).
    unfold firingScroll. now rewrite Hstale, Hrunning, Hscroll.
Qed.

Variable Languages : list (@LanguageOption LanguageEnum).
Variable LanguageEnum_eqb : LanguageEnum -> LanguageEnum -> bool.

(** X10 (anchor of the hidden overlay).  After a pointer-down outside the
    overlay the rectangle is zero but the anchor derived from it is not the
    origin: it is [x = 0], [y = 10]. *)
Theorem outside_click_anchor (w : World) (localName : jsstring) :
  localName <> js "plasmo-csui" ->
  let w' := step w (MouseDown localName) in
  render Languages LanguageEnum_eqb (component w') = None /\
  entryPanelPosition (sourceTextRect (component w')) = {| x := 0; y := 10 |}.
Proof.
  intros Hother w'. subst w'. unfold step, callback, handleMouseDown.
  rewrite (jsstring_eqb_neq _ _ Hother). split; reflexivity.
Qed.

(** X11 (what truncation keeps).  For every cap, the text captured by the
    hotkey on a live selection is a prefix of the trimmed selection text.
    It is the whole trimmed text when that fits the cap.  With a negative
    cap [slice] counts from the end, so the capture is the trimmed text
    without its last [- MAX_TRANSLATION_LENGTH] code units. *)
Theorem capture_is_prefix (w : World) (selection : Selection) :
  isCollapsed selection = false ->
  let captured := sourceText (component (step w (Hotkey (Some selection)))) in
  let trimmed := trim (toString selection) in
  (exists dropped, trimmed = captured ++ dropped) /\
  ((Z.of_nat (List.length trimmed) <= MAX_TRANSLATION_LENGTH)%Z ->
     captured = trimmed) /\
  ((MAX_TRANSLATION_LENGTH < 0)%Z ->
     captured
     = firstn (Z.to_nat (Z.of_nat (List.length trimmed) + MAX_TRANSLATION_LENGTH))
              trimmed).
Proof.
  intros Hlive captured trimmed.
  assert (Hcaptured : captured = slice trimmed 0 MAX_TRANSLATION_LENGTH).
  { subst captured. unfold step, callback, onHotkey. rewrite Hlive. reflexivity. }
  rewrite Hcaptured, slice_from_start. split; [|split].
  - eexists. symmetry. apply firstn_skipn.
  - intros Hfits. destruct (MAX_TRANSLATION_LENGTH <? 0)%Z eqn:Hneg.
    + apply Z.ltb_lt in Hneg. lia.
    + apply firstn_all2. lia.
  - intros Hneg. apply Z.ltb_lt in Hneg. now rewrite Hneg.
Qed.

(** X12 (blank selection).  A live selection that holds only white space
    captures the empty string, whatever the cap; the overlay is shown all the
    same, and in a reachable world a request with an empty text is posted
    under a new id. *)
Theorem blank_selection_captures_nothing (w : World) (selection : Selection) :
  isCollapsed selection = false ->
  Forall (fun c => is_white_space c = true) (toString selection) ->
  let w' := step w (Hotkey (Some selection)) in
  sourceText (component w') = js_empty /\
  showEntryPanel (component w') = true /\
  (reachable w ->
     port w' = port w ++ [{| uniqueId := Lodash.toString (N.succ (idCounter w));
                             text := js_empty |}]).
Proof.
  intros Hlive Hwhite w'.
  assert (Hstep : forall captured,
            exec (onHotkey MAX_TRANSLATION_LENGTH captured (Some selection)) w
            = exec (getTranslatedText captured js_empty)
                (exec (setSourceTextRect (Value (getBoundingClientRect selection)))
                   (exec (setShowEntryPanel (Value true)) w))).
  { intros captured. unfold onHotkey.
    rewrite Hlive, (trim_white _ Hwhite), !exec_seq.
    rewrite slice_from_start, firstn_nil.
    now destruct (getBoundingClientRect selection). }
  subst w'. unfold step, rerender, callback. rewrite Hstep.
  rewrite getTranslatedText_exec. simpl. repeat split.
  intros Hr. destruct (reachable_closures_current w Hr) as (Hhotkey & _).
  now rewrite Hhotkey.
Qed.

Section Picker.

(** [===] decides equality of language values, and no two entries of
    [Languages] share a value. *)
Hypothesis LanguageEnum_eqb_eq :
  forall a b, LanguageEnum_eqb a b = true <-> a = b.
Hypothesis Languages_distinct : NoDup (map value Languages).

Lemma filter_none {A : Type} (p : A -> bool) (l : list A) :
  (forall a, In a l -> p a = false) -> filter p l = [].
Proof.
  induction l as [|a l IH]; intros Hp; [reflexivity|]. simpl.
  rewrite (Hp a) by now left. apply IH. intros b Hb. apply Hp. now right.
Qed.

Lemma filter_of_map {A B : Type} (p : B -> bool) (f : A -> B) (l : list A) :
  filter p (map f l) = map f (filter (fun a => p (f a)) l).
Proof.
  induction l as [|a l IH]; [reflexivity|]. simpl.
  destruct (p (f a)); simpl; now rewrite IH.
Qed.

(** Among entries with distinct values, looking for the value of an entry
    finds that entry and no other. *)
Lemma lookup_distinct (entries : list LanguageOption) (item : LanguageOption) :
  NoDup (map value entries) ->
  In item entries ->
  let current := fun language => LanguageEnum_eqb (value language) (value item) in
  find current entries = Some item /\ filter current entries = [item].
Proof.
  intros Hnodup Hin current. subst current.
  induction entries as [|entry entries IH]; [destruct Hin|].
  simpl in Hnodup. apply NoDup_cons_iff in Hnodup. destruct Hnodup as [Hfresh Hnodup].
  simpl. destruct Hin as [-> | Hin].
  - rewrite (proj2 (LanguageEnum_eqb_eq _ _) eq_refl). split; [reflexivity|].
    f_equal. apply filter_none. intros other Hother.
    destruct (LanguageEnum_eqb (value other) (value item)) eqn:Heq; [|reflexivity].
    apply LanguageEnum_eqb_eq in Heq. exfalso. apply Hfresh.
    rewrite <- Heq. now apply in_map.
  - destruct (LanguageEnum_eqb (value entry) (value item)) eqn:Heq.
    + apply LanguageEnum_eqb_eq in Heq. exfalso. apply Hfresh.
      rewrite Heq. now apply in_map.
    + now apply IH.
Qed.

(** X13 (the picker marks the current language).  Let [===] decide equality
    of language values and let the entries of [Languages] have distinct
    values.  Whenever the overlay is shown and the rendered target language
    is the value of an entry of the list, the language button carries that
    entry's label and exactly one check mark is opaque, the one of that
    entry.  If the rendered target language is not in the list (a stored
    value the list does not know), the button has no label and no check mark
    is opaque. *)
Theorem picker_marks_current_language (s : State) :
  showEntryPanel s = true ->
  exists panel,
    render Languages LanguageEnum_eqb s = Some panel /\
    panel_text panel = targetText s /\
    map item_label (panel_items panel) = map label Languages /\
    (forall item,
       In item Languages ->
       targetLanguage s = value item ->
       panel_language panel = Some (label item) /\
       filter item_checked (panel_items panel)
       = [{| item_label := label item; item_checked := true |}]) /\
    (~ In (targetLanguage s) (map value Languages) ->
     panel_language panel = None /\
     filter item_checked (panel_items panel) = []).
Proof.
  intros Hshown. unfold render. rewrite Hshown.
  eexists. split; [reflexivity|].
  cbn [panel_text panel_language panel_items].
  split; [reflexivity | split; [now rewrite map_map | split]].
  - intros item Hin ->.
    destruct (lookup_distinct Languages item Languages_distinct Hin)
      as [Hfind Hfilter].
    rewrite Hfind, filter_of_map. cbn [item_checked]. rewrite Hfilter.
    split; [reflexivity|]. simpl.
    now rewrite (proj2 (LanguageEnum_eqb_eq _ _) eq_refl).
  - intros Hunknown.
    assert (Hnone : forall language,
              In language Languages ->
              LanguageEnum_eqb (value language) (targetLanguage s) = false).
    { intros language Hlanguage.
      destruct (LanguageEnum_eqb _ _) eqn:Heq; [|reflexivity].
      apply LanguageEnum_eqb_eq in Heq. exfalso. apply Hunknown.
      rewrite <- Heq. now apply in_map. }
    split.
    + destruct (find _ Languages) as [found|] eqn:Hfind; [|reflexivity].
      apply find_some in Hfind. destruct Hfind as [Hin Heq].
      rewrite (Hnone found Hin) in Heq. discriminate.
    + rewrite filter_of_map. cbn [item_checked].
      rewrite (filter_none _ Languages Hnone). reflexivity.
Qed.

End Picker.

(** X14 (the current session is the last request).  In a reachable world
    either nothing was ever sent and [textId] and [sourceText] are empty, or
    [textId] and [sourceText] are the id and the text of the request sent
    last, and that id is not empty. *)
Theorem current_session_is_last_request (w : World) :
  reachable w ->
  (port w = [] /\
   textId (component w) = js_empty /\ sourceText (component w) = js_empty) \/
  (exists earlier r,
     port w = earlier ++ [r] /\
     textId (component w) = uniqueId r /\
     sourceText (component w) = text r /\
     textId (component w) <> js_empty).
Proof.
  intros Hr.
  destruct (reachable_invariant w Hr) as (_ & (ns & Hids & _) & Hlast).
  unfold tracks_last_request in Hlast.
  destruct (rev (port w)) as [|r rs] eqn:Hrev.
  - left. apply (f_equal (@rev Request)) in Hrev.
    rewrite rev_involutive in Hrev. now split.
  - right. exists (rev rs), r. destruct Hlast as [Hid Htext].
    assert (Hport : port w = rev rs ++ [r]).
    { apply (f_equal (@rev Request)) in Hrev.
      now rewrite rev_involutive in Hrev. }
    repeat split; try easy.
    rewrite <- Hid. intros Hempty.
    assert (Hin : In (uniqueId r) (sessionIds w)).
    { unfold sessionIds. rewrite Hport, map_app. apply in_or_app. right. now left. }
    rewrite Hids in Hin. apply in_map_iff in Hin. destruct Hin as (n & Hn & _).
    rewrite Hempty in Hn. now apply Lodash_toString_nonempty in Hn.
Qed.

End EntryProperties.

(** * Concrete runs *)

Lemma afterHotkey_reachable : reachable SampleEnglish 5000 afterHotkey.
Proof. exists 0%N, [Hotkey (Some holaMundo)]. reflexivity. Defined.

Lemma afterFrench_reachable : reachable SampleEnglish 5000 afterFrench.
Proof.
  exists 0%N, [Hotkey (Some holaMundo); LanguagePicked SampleFrench].
  reflexivity.
Defined.

Lemma sampleMount_reachable : reachable SampleEnglish 5000 sampleMount.
Proof. exact (mount_reachable SampleEnglish 5000 0). Defined.

Lemma scrolledThenHidden_reachable : reachable SampleEnglish 5000 scrolledThenHidden.
Proof.
  exists 0%N, [Hotkey (Some holaMundo); Scroll; MouseDown (js "div")].
  reflexivity.
Defined.

(** The hotkey on "Hola mundo" shows the overlay under the middle of the
    selection and requests session 1; two fragments then build the display. *)
Example hola_mundo_streams :
  showEntryPanel (component afterHotkey) = true /\
  entryPanelPosition (sourceTextRect (component afterHotkey))
  = {| x := 200.25; y := 68.25 |} /\
  port afterHotkey = [request1] /\
  targetText (component (run 5000 afterHotkey (parts (js "1") [js "Hello"])))
  = js "Hello" /\
  targetText (component
    (run 5000 afterHotkey (parts (js "1") [js "Hello"; js " world"])))
  = js "Hello world".
Proof. repeat split. Qed.

(** Picking French mid-stream empties the display and requests session 2
    for the same text; a late fragment of session 1 is dropped, and an error
    of session 2 is displayed verbatim. *)
Example french_restarts :
  let streaming := run 5000 afterHotkey (parts (js "1") [js "Hello"]) in
  let restarted := step 5000 streaming (LanguagePicked SampleFrench) in
  targetText (component streaming) = js "Hello" /\
  targetText (component restarted) = js_empty /\
  port restarted = [request1; request2] /\
  step 5000 restarted (PortMessage (TRANSLATE_TEXT_PART (js "1") (js "!!")))
  = restarted /\
  targetText (component
    (step 5000 restarted
       (PortMessage (TRANSLATE_TEXT_ERROR (js "2") (js "rate limited")))))
  = js "rate limited".
Proof. repeat split. Qed.

(** A selection of white space only is live but captures the empty string;
    the session still starts, with an empty request text, also after a
    session with a non-empty source text. *)
Example blank_selection_starts :
  port (step 5000 afterHotkey (Hotkey (Some blank)))
  = [request1; {| uniqueId := js "2"; text := js_empty |}].
Proof. reflexivity. Qed.

(** A pointer-down outside the overlay hides it and zeroes the rectangle. *)
Example outside_click_hides :
  let hidden := step 5000 afterHotkey (MouseDown (js "div")) in
  showEntryPanel (component hidden) = false /\
  sourceTextRect (component hidden) = zeroRect /\
  step 5000 hidden (ScrollSettled (Some holaMundoScrolled)) = hidden.
Proof. repeat split. Qed.

(** [slice] with a cap shorter than the text, with a longer one, and with a
    negative end, which counts from the end of the text; [trim]. *)
Example slice_samples :
  slice (js "Hola mundo") 0 4 = js "Hola" /\
  slice (js "Hola mundo") 0 50 = js "Hola mundo" /\
  slice (js "Hola mundo") 0 (-6) = js "Hola" /\
  trim (js "  Hola mundo ") = js "Hola mundo".
Proof. repeat split. Qed.

(** * Witnesses and counterexamples *)

Lemma stale_session_response_inert_witness :
  let late := TRANSLATE_TEXT_PART (js "1") (js "!!") in
  let failed := TRANSLATE_TEXT_ERROR (js "1") (js "rate limited") in
  (port afterFrench = [] ++ [request1] ++ [request2] /\
   In request1 [request1]) /\
  textId (component afterFrench) = uniqueId request2 /\
  uniqueId request1 <> uniqueId request2 /\
  step 5000 afterFrench (PortMessage late) = afterFrench /\
  run 5000 afterFrench (map (@PortMessage SampleLanguage) [late; failed])
  = afterFrench.
Proof.
  intros late failed.
  destruct (stale_session_response_inert SampleEnglish 5000 afterFrench
              [request1] request1 request2
              afterFrench_reachable eq_refl (or_introl eq_refl))
    as (Hcurrent & Hother & Hone & Hall).
  split; [split; [reflexivity | now left] | ].
  split; [exact Hcurrent | split; [exact Hother | split]].
  - exact (Hone late eq_refl).
  - apply (Hall [late; failed]). repeat constructor.
Defined.

Lemma fragments_accumulate_witness :
  let fragments := [js "Hello"; js " world"] in
  let w' := run 5000 afterHotkey (parts (textId (component afterHotkey)) fragments) in
  let interleaved :=
    [PortMessage (TRANSLATE_TEXT_PART (js "1") (js "Hello"));
     ScrollSettled (Some holaMundoScrolled);
     PortMessage (TRANSLATE_TEXT_PART (js "0") (js "!!"));
     PortMessage (TRANSLATE_TEXT_PART (js "1") (js " world"))] in
  session_started sampleMount afterHotkey (js "Hola mundo") /\
  targetText (component w')
  = targetText (component afterHotkey) ++ List.concat fragments /\
  w' = exec (setTargetText
               (Value (targetText (component afterHotkey) ++ List.concat fragments)))
            afterHotkey /\
  targetText (component w') = js "Hello world" /\
  targetText (component (run 5000 afterHotkey interleaved)) = js "Hello world".
Proof.
  intros fragments w' interleaved.
  assert (Hstarted : session_started sampleMount afterHotkey (js "Hola mundo")).
  { repeat split.
    - intros [].
    - intros Heq. discriminate Heq. }
  destruct (fragments_accumulate SampleEnglish 5000 afterHotkey fragments
              afterHotkey_reachable) as (Htext & Hworld & Hfresh & Hquiet).
  split; [exact Hstarted | split; [exact Htext | split; [exact Hworld|]]].
  split.
  - exact (Hfresh sampleMount (js "Hola mundo") Hstarted).
  - exact (Hquiet interleaved eq_refl).
Defined.

Lemma session_start_witness :
  session_started afterHotkey
    (exec (getTranslatedText js_empty js_empty) afterHotkey) js_empty /\
  session_started afterHotkey
    (step 5000 afterHotkey (Hotkey (Some holaMundo)))
    (slice (trim (toString holaMundo)) 0 5000) /\
  session_started afterHotkey
    (step 5000 afterHotkey (LanguagePicked SampleFrench))
    (sourceText (component afterHotkey)).
Proof.
  destruct (session_start SampleEnglish 5000 afterHotkey afterHotkey_reachable)
    as (Hcall & Hhotkey & Hpicker).
  split; [|split].
  - exact (Hcall js_empty js_empty (or_introl eq_refl)).
  - exact (Hhotkey holaMundo eq_refl).
  - exact (Hpicker SampleFrench).
Defined.

Lemma language_change_restarts_witness :
  let w' := step 5000 afterHotkey (LanguagePicked SampleFrench) in
  port afterHotkey = [] ++ [request1] /\
  (storage w' = storage afterHotkey ++ [SampleFrench] /\
   targetText (component w') = js_empty /\
   textId (component w') <> uniqueId request1 /\
   ~ In (textId (component w')) (sessionIds afterHotkey) /\
   sourceText (component w') = text request1 /\
   port w' = port afterHotkey
             ++ [{| uniqueId := textId (component w'); text := text request1 |}]) /\
  textId (component w') = js "2".
Proof.
  intros w'. split; [reflexivity | split; [|reflexivity]].
  exact (language_change_restarts SampleEnglish 5000 afterHotkey SampleFrench
           [] request1 afterHotkey_reachable eq_refl).
Defined.

Lemma error_surfacing_witness :
  let shown := fun id =>
    step 5000 afterFrench (PortMessage (TRANSLATE_TEXT_ERROR id (js "rate limited"))) in
  (targetText (component (shown (textId (component afterFrench)))) = js "rate limited" /\
   shown (textId (component afterFrench))
   = exec (setTargetText (Value (js "rate limited"))) afterFrench) /\
  shown (js "1") = afterFrench.
Proof.
  intros shown. split.
  - exact (proj1 (error_surfacing SampleEnglish 5000 afterFrench
                    (textId (component afterFrench)) (js "rate limited")
                    afterFrench_reachable) eq_refl).
  - apply (proj2 (error_surfacing SampleEnglish 5000 afterFrench
                    (js "1") (js "rate limited") afterFrench_reachable)).
    intros Heq. discriminate Heq.
Defined.

Lemma no_terminal_state_witness :
  let id := textId (component afterFrench) in
  let errored :=
    step 5000 afterFrench (PortMessage (TRANSLATE_TEXT_ERROR id (js "rate limited"))) in
  let after := step 5000 errored (PortMessage (TRANSLATE_TEXT_PART id (js "Bonjour"))) in
  targetText (component errored) = js "rate limited" /\
  textId (component errored) = id /\
  targetText (component after) = js "rate limited" ++ js "Bonjour" /\
  targetText (component
    (step 5000 afterFrench (PortMessage (TRANSLATE_TEXT_PART id (js "Bonjour")))))
  = targetText (component afterFrench) ++ js "Bonjour".
Proof.
  exact (no_terminal_state SampleEnglish 5000 afterFrench
           (js "rate limited") (js "Bonjour") afterFrench_reachable).
Defined.

Lemma anchor_computation_witness :
  let rect := getBoundingClientRect holaMundoScrolled in
  let anchor := {| x := left rect + (right rect - left rect) / 2;
                   y := bottom rect + 10 |}%float in
  let scrolled := step 5000 afterHotkey Scroll in
  anchor = {| x := 200.25; y := 38.25 |} /\
  firingScroll scrolled = true /\
  entryPanelPosition
    (sourceTextRect (component (step 5000 sampleMount (Hotkey (Some holaMundoScrolled)))))
  = anchor /\
  entryPanelPosition
    (sourceTextRect (component (step 5000 scrolled (ScrollSettled (Some holaMundoScrolled)))))
  = anchor.
Proof.
  split; [reflexivity | split; [reflexivity | split]].
  - exact (proj1 (proj2 (anchor_computation 5000 sampleMount
                           holaMundoScrolled)) eq_refl).
  - exact (proj2 (proj2 (anchor_computation 5000 (step 5000 afterHotkey Scroll)
                           holaMundoScrolled))
             eq_refl eq_refl).
Defined.

Lemma capture_truncation_witness :
  (0 <= 4)%Z /\
  let w' := step 4 sampleMount (Hotkey (Some holaMundo)) in
  sourceText (component w') = js "Hola" /\
  (Z.of_nat (List.length (sourceText (component w'))) <= 4)%Z /\
  port w' = port sampleMount
            ++ [{| uniqueId := textId (component w'); text := sourceText (component w') |}].
Proof.
  assert (Hcap : (0 <= 4)%Z) by lia.
  split; [exact Hcap|].
  destruct (capture_truncation SampleEnglish 4 sampleMount holaMundo Hcap eq_refl)
    as (Hcaptured & Hlength & _ & Hrequest).
  split; [exact Hcaptured | split; [exact Hlength | ]].
  exact (Hrequest (mount_reachable SampleEnglish 4 0)).
Defined.

Lemma zeroed_visual_state_witness :
  showEntryPanel (component (step 5000 afterHotkey (Hotkey (Some caret)))) = false /\
  (let w' := step 5000 afterHotkey (MouseDown (js "div")) in
   showEntryPanel (component w') = false /\
   sourceTextRect (component w') = zeroRect).
Proof.
  destruct (zeroed_visual_state 5000 afterHotkey)
    as (Hcollapsed & _ & Houtside & _).
  split.
  - exact (Hcollapsed caret eq_refl).
  - apply (Houtside (js "div")). intros Heq. discriminate Heq.
Defined.

(** C6 as stated fails on the hotkey: without a selection object the overlay
    stays shown, and on a collapsed selection the rectangle is not reset. *)
Lemma zeroed_visual_state_counterexample :
  showEntryPanel (component afterHotkey) = true /\
  showEntryPanel (component (step 5000 afterHotkey (Hotkey None))) <> false /\
  sourceTextRect (component (step 5000 afterHotkey (Hotkey (Some caret)))) <> zeroRect.
Proof.
  split; [reflexivity | split].
  - intros Heq. discriminate Heq.
  - intros Heq. apply (f_equal (fun rect => PrimFloat.ltb 0 (left rect))) in Heq.
    vm_compute in Heq. discriminate Heq.
Qed.

(** C9 (scroll recompute frame) fails on the code.  The cleanup of the
    scroll effect removes the listener but does not cancel the debounced
    function, so its timer can run out after the overlay was hidden or shown,
    and its callback then tests the [showEntryPanel] of the render that made
    it.  After the hotkey on a live selection, a scroll and a pointer-down
    outside the overlay, the overlay is hidden and the rectangle is zero;
    when the scroll's debounce timer then runs out on a live selection, its
    callback stores the selection's rectangle although the overlay is hidden.
    After a scroll while hidden and the hotkey on a live selection, the
    overlay is shown; when the timer then runs out on a live selection, its
    callback stores nothing. *)
Lemma stale_scroll_recompute :
  (showEntryPanel (component scrolledThenHidden) = false /\
   sourceTextRect (component scrolledThenHidden) = zeroRect /\
   let w' := step 5000 scrolledThenHidden (ScrollSettled (Some holaMundoScrolled)) in
   showEntryPanel (component w') = false /\
   sourceTextRect (component w') = getBoundingClientRect holaMundoScrolled /\
   w' <> scrolledThenHidden) /\
  (showEntryPanel (component scrolledThenShown) = true /\
   isCollapsed holaMundoScrolled = false /\
   let w' := step 5000 scrolledThenShown (ScrollSettled (Some holaMundoScrolled)) in
   sourceTextRect (component w') = getBoundingClientRect holaMundo /\
   sourceTextRect (component w') <> getBoundingClientRect holaMundoScrolled).
Proof.
  split.
  - repeat split. intros Heq.
    apply (f_equal (fun w => PrimFloat.ltb 0 (left (sourceTextRect (component w)))))
      in Heq.
    vm_compute in Heq. discriminate Heq.
  - repeat split. intros Heq.
    apply (f_equal (fun rect => PrimFloat.ltb 20 (top rect))) in Heq.
    vm_compute in Heq. discriminate Heq.
Qed.

(** * Witnesses of the further properties *)

Lemma sampleLanguage_eqb_eq (a b : SampleLanguage) :
  sampleLanguage_eqb a b = true <-> a = b.
Proof. destruct a, b; simpl; split; intros H; try reflexivity; discriminate H. Defined.

Lemma sampleLanguages_distinct : NoDup (map value sampleLanguages).
Proof.
  repeat constructor; simpl; intros H;
    repeat (destruct H as [H | H]; [discriminate H|]); exact H.
Defined.

Lemma port_trace_witness :
  let texts := requestTexts 5000 (sourceText (component sampleMount)) sampleEvents in
  (port (run 5000 sampleMount sampleEvents)
   = port sampleMount ++ requests (idCounter sampleMount) texts /\
   List.length texts = List.length (filter starts_session sampleEvents) /\
   idCounter (run 5000 sampleMount sampleEvents)
   = (idCounter sampleMount + N.of_nat (List.length texts))%N /\
   sourceText (component (run 5000 sampleMount sampleEvents))
   = fold_left (capturedSource 5000) sampleEvents (sourceText (component sampleMount))) /\
  port sampleMount ++ requests (idCounter sampleMount) texts
  = [request1; request2; {| uniqueId := js "3"; text := js_empty |}].
Proof.
  split; [|reflexivity].
  exact (port_trace SampleEnglish 5000 sampleMount sampleEvents sampleMount_reachable).
Defined.

Lemma request_texts_bounded_witness :
  (0 <= 4)%Z /\
  let w := run 4 (mount SampleEnglish 0)
             [Hotkey (Some holaMundo); LanguagePicked SampleFrench] in
  (Z.of_nat (List.length (sourceText (component w))) <= 4)%Z /\
  Forall (fun r => (Z.of_nat (List.length (text r)) <= 4)%Z) (port w).
Proof.
  assert (Hcap : (0 <= 4)%Z) by lia.
  split; [exact Hcap|].
  apply (request_texts_bounded SampleEnglish 4 _ Hcap).
  exists 0%N, [Hotkey (Some holaMundo); LanguagePicked SampleFrench].
  reflexivity.
Defined.

Lemma request_texts_start_trimmed_witness :
  (forall c rest,
     sourceText (component afterFrench) = c :: rest -> is_white_space c = false) /\
  Forall (fun r => forall c rest, text r = c :: rest -> is_white_space c = false)
         (port afterFrench).
Proof.
  exact (request_texts_start_trimmed SampleEnglish 5000 afterFrench
           afterFrench_reachable).
Defined.

Lemma effects_follow_state_witness :
  listener_textId (closures afterFrench) = textId (component afterFrench) /\
  scroll_showEntryPanel (closures afterFrench) = showEntryPanel (component afterFrench) /\
  hotkey_sourceText (closures afterFrench) = js_empty.
Proof.
  exact (effects_follow_state SampleEnglish 5000 afterFrench afterFrench_reachable).
Defined.

Lemma message_effect_exact_witness :
  (step 5000 afterFrench (PortMessage (TRANSLATE_TEXT_PART (js "2") js_empty))
   = afterFrench) /\
  (step 5000 afterFrench (PortMessage (TRANSLATE_TEXT_PART (js "2") (js "Bonjour")))
   <> afterFrench).
Proof.
  destruct (message_effect_exact SampleEnglish 5000 afterFrench (js "2") js_empty
              afterFrench_reachable) as (Hpart & _ & _).
  destruct (message_effect_exact SampleEnglish 5000 afterFrench (js "2") (js "Bonjour")
              afterFrench_reachable) as (Hpart' & _ & _).
  split.
  - apply (proj2 Hpart). right. reflexivity.
  - intros Hsame. destruct (proj1 Hpart' Hsame) as [Hid | Hempty].
    + apply Hid. reflexivity.
    + discriminate Hempty.
Defined.

Lemma outside_click_anchor_witness :
  let w' := step 5000 afterHotkey (MouseDown (js "div")) in
  render sampleLanguages sampleLanguage_eqb (component w') = None /\
  entryPanelPosition (sourceTextRect (component w')) = {| x := 0; y := 10 |}.
Proof.
  apply (outside_click_anchor 5000 sampleLanguages sampleLanguage_eqb afterHotkey (js "div")).
  intros Heq. discriminate Heq.
Defined.

Lemma capture_is_prefix_witness :
  let captured :=
    sourceText (component (step (-6) sampleMount (Hotkey (Some holaMundo)))) in
  (exists dropped, trim (toString holaMundo) = captured ++ dropped) /\
  captured = js "Hola" /\
  sourceText (component (step 10 sampleMount (Hotkey (Some holaMundo))))
  = trim (toString holaMundo).
Proof.
  intros captured.
  destruct (capture_is_prefix (-6) sampleMount holaMundo eq_refl)
    as (Hprefix & _ & Hnegative).
  destruct (capture_is_prefix 10 sampleMount holaMundo eq_refl)
    as (_ & Hfits & _).
  split; [exact Hprefix | split].
  - apply Hnegative. lia.
  - apply Hfits. simpl. lia.
Defined.

Lemma blank_selection_captures_nothing_witness :
  let w' := step 5000 afterHotkey (Hotkey (Some blank)) in
  sourceText (component w') = js_empty /\
  showEntryPanel (component w') = true /\
  port w' = port afterHotkey
            ++ [{| uniqueId := Lodash.toString (N.succ (idCounter afterHotkey));
                   text := js_empty |}].
Proof.
  intros w'.
  destruct (blank_selection_captures_nothing SampleEnglish 5000 afterHotkey blank eq_refl)
    as (Hsource & Hshown & Hport).
  - repeat constructor.
  - split; [exact Hsource | split; [exact Hshown | exact (Hport afterHotkey_reachable)]].
Defined.

Lemma picker_marks_current_language_witness :
  let english := {| value := SampleEnglish; label := js "English" |} in
  let frenchOnly := [{| value := SampleFrench; label := js "French" |}] in
  (exists panel,
     render sampleLanguages sampleLanguage_eqb (component afterFrench) = Some panel /\
     panel_language panel = Some (label english) /\
     filter item_checked (panel_items panel)
     = [{| item_label := label english; item_checked := true |}]) /\
  (exists panel,
     render frenchOnly sampleLanguage_eqb (component afterFrench) = Some panel /\
     panel_language panel = None /\
     filter item_checked (panel_items panel) = []).
Proof.
  intros english frenchOnly. split.
  - destruct (picker_marks_current_language sampleLanguages sampleLanguage_eqb
                sampleLanguage_eqb_eq sampleLanguages_distinct
                (component afterFrench) eq_refl)
      as (panel & Hrender & _ & _ & Hknown & _).
    exists panel. split; [exact Hrender|].
    apply (Hknown english); [now left | reflexivity].
  - assert (Hdistinct : NoDup (map value frenchOnly)).
    { repeat constructor. intros []. }
    destruct (picker_marks_current_language frenchOnly sampleLanguage_eqb
                sampleLanguage_eqb_eq Hdistinct (component afterFrench) eq_refl)
      as (panel & Hrender & _ & _ & _ & Hunknown).
    exists panel. split; [exact Hrender|].
    apply Hunknown. intros [Heq | []]. discriminate Heq.
Defined.

Lemma current_session_is_last_request_witness :
  (port afterFrench = [] /\
   textId (component afterFrench) = js_empty /\
   sourceText (component afterFrench) = js_empty) \/
  (exists earlier r,
     port afterFrench = earlier ++ [r] /\
     textId (component afterFrench) = uniqueId r /\
     sourceText (component afterFrench) = text r /\
     textId (component afterFrench) <> js_empty).
Proof.
  exact (current_session_is_last_request SampleEnglish 5000 afterFrench
           afterFrench_reachable).
Defined.

Lemma scroll_recompute_effect_witness :
  let scrolled := step 5000 afterHotkey Scroll in
  firingScroll scrolled = true /\
  sourceTextRect (component (step 5000 scrolled (ScrollSettled (Some holaMundoScrolled))))
  = getBoundingClientRect holaMundoScrolled /\
  component (step 5000 scrolled (ScrollSettled (Some caret))) = component scrolled /\
  firingScroll scrolled = showEntryPanel (component scrolled).
Proof.
  intros scrolled.
  destruct (scroll_recompute_effect SampleEnglish 5000 scrolled (Some holaMundoScrolled))
    as (_ & Hlive & _ & Hcurrent).
  destruct (scroll_recompute_effect SampleEnglish 5000 scrolled (Some caret))
    as (_ & _ & Hdead & _).
  split; [reflexivity | split; [|split]].
  - exact (Hlive holaMundoScrolled eq_refl eq_refl eq_refl).
  - apply Hdead. right. right. exists caret. split; reflexivity.
  - apply Hcurrent; [|reflexivity|reflexivity].
    exists 0%N, [Hotkey (Some holaMundo); Scroll]. reflexivity.
Defined.
